(** * eli5.formatters.html: rendering of explanations as HTML

    A shallow embedding of [eli5/formatters/html.py]: the accumulation of
    per-character weights from weighted spans, the mapping of a weight to an
    HSL colour and an opacity, the per-character colorizer, the formatting of
    feature labels and the selection of the top target.

    Numbers.  The weights are numpy float64 scalars.  Finite values are
    idealised as exact rationals ([Q], kept in lowest terms by every
    operation): the accumulation of the weights and the lightness of a
    colour are computed without rounding and without overflow, so nothing
    is stated here that depends on either (the exact total of a sum, the
    order of additions, finiteness).  The opacity, whose two printed
    decimals depend on the rounding, is computed with every operation
    rounded to binary64 ([round64]).  The special values of IEEE arithmetic
    are kept, because a division by zero on a numpy scalar does not raise
    but yields [inf] or [nan]; on plain Python numbers it raises
    [ZeroDivisionError], which is outside the model.  Numbers that the module
    only receives (span weights, coefficients, probabilities, scores) are
    finite rationals.

    Exceptions.  A function that can raise returns a [result]. *)

From Stdlib Require Import QArith Qabs Qround Qpower Lqa ZArith Lia.
From Stdlib Require Import String Ascii List DecimalString.
From stdpp Require Import base gmap strings list.

Local Open Scope Z_scope.

(** ** Python exceptions *)

Inductive exn : Set :=
| ValueError       (* max() arg is an empty sequence *)
| KeyError         (* missing dict key *)
| AttributeError.  (* str method called on a list *)

Inductive result (A : Type) : Type :=
| Ok (a : A)
| Raise (e : exn).
Arguments Ok {A} a.
Arguments Raise {A} e.

#[global] Instance result_ret : MRet result := fun A a => Ok a.
#[global] Instance result_bind : MBind result := fun A B k r =>
  match r with
  | Ok a => k a
  | Raise e => Raise e
  end.

Definition returns {A : Type} (r : result A) : Prop := exists a, r = Ok a.

(** ** Numbers *)

Inductive num : Type :=
| Fin (q : Q)          (* a finite value *)
| Inf (negative : bool)
| NaN.

Coercion Fin : Q >-> num.

Definition Qzero (q : Q) : bool := Qeq_bool q 0.
Definition Qneg (q : Q) : bool := negb (Qle_bool 0 q).

Definition num_of_Z (z : Z) : num := Fin (inject_Z z).

Definition num_abs (x : num) : num :=
  match x with
  | Fin q => Fin (Qred (Qabs q))
  | Inf _ => Inf false
  | NaN => NaN
  end.

Definition num_opp (x : num) : num :=
  match x with
  | Fin q => Fin (Qred (- q))
  | Inf s => Inf (negb s)
  | NaN => NaN
  end.

(** The sum of two finite values is exact: numpy rounds it to binary64,
    and turns a sum beyond the largest binary64 number into an infinity. *)
Definition num_add (x y : num) : num :=
  match x, y with
  | Fin a, Fin b => Fin (Qred (a + b))
  | Fin _, Inf s | Inf s, Fin _ => Inf s
  | Inf s, Inf t => if Bool.eqb s t then Inf s else NaN
  | _, _ => NaN
  end.

Definition num_sub (x y : num) : num := num_add x (num_opp y).

Definition num_mul (x y : num) : num :=
  match x, y with
  | Fin a, Fin b => Fin (Qred (a * b))
  | Fin a, Inf s | Inf s, Fin a =>
      if Qzero a then NaN else Inf (xorb s (Qneg a))
  | Inf s, Inf t => Inf (xorb s t)
  | _, _ => NaN
  end.

(** numpy division: [x / 0] is [nan] for [x = 0] and an infinity otherwise
    (with a RuntimeWarning, not an exception).  This is the division of the
    numpy scalars that [render_weighted_spans] computes with; a plain
    Python float divided by zero raises [ZeroDivisionError] instead, which
    the model does not have. *)
Definition num_div (x y : num) : num :=
  match x, y with
  | Fin a, Fin b =>
      if Qzero b then (if Qzero a then NaN else Inf (Qneg a))
      else Fin (Qred (a / b))
  | Fin _, Inf _ => Fin 0
  | Inf s, Fin b => Inf (xorb s (Qneg b))
  | Inf _, Inf _ => NaN
  | _, _ => NaN
  end.

(** [x > y]; every comparison with [nan] is false. *)
Definition num_gtb (x y : num) : bool :=
  match x, y with
  | Fin a, Fin b => negb (Qle_bool a b)
  | Fin _, Inf s => s
  | Inf s, Fin _ => negb s
  | Inf s, Inf t => negb s && t
  | _, _ => false
  end.

(** [np.isclose(x, 0.)] with the default tolerances: [|x - 0| <= atol +
    rtol * |0|] with [atol = 1e-8]; false for [inf] and [nan]. *)
Definition atol : Q := 1 # 100000000.
Definition rtol : Q := 1 # 100000.

Definition isclose0 (x : num) : bool :=
  match x with
  | Fin q => Qle_bool (Qabs (q - 0)) (atol + rtol * Qabs 0)
  | _ => false
  end.

(** ** Number formatting *)

#[local] Arguments String.append !s1 s2 / : simpl nomatch.

Definition dquote : string := String (ascii_of_nat 34) EmptyString.
Definition newline : string := String (ascii_of_nat 10) EmptyString.

Definition str_of_Z (z : Z) : string :=
  (if (z <? 0)%Z then "-" else EmptyString)
    +:+ NilZero.string_of_uint (N.to_uint (Z.abs_N z)).

Fixpoint str_repeat (s : string) (n : nat) : string :=
  match n with
  | O => EmptyString
  | S k => s +:+ str_repeat s k
  end.

(** Left-pad with zeros up to [width] characters. *)
Definition zfill (width : nat) (s : string) : string :=
  str_repeat "0" (width - String.length s) +:+ s.

(** Round to the nearest integer, ties to the even one. *)
Definition round_half_even (q : Q) : Z :=
  let f := Qfloor q in
  match Qcompare (q - inject_Z f) (1 # 2) with
  | Lt => f
  | Gt => (f + 1)%Z
  | Eq => if Z.even f then f else (f + 1)%Z
  end.

(** ['{:.<d>f}'.format(x)] *)
Definition format_f (d : nat) (x : num) : string :=
  match x with
  | Fin q =>
      let scale := (10 ^ Z.of_nat d)%Z in
      let n := round_half_even (Qabs q * inject_Z scale) in
      (if Qneg q then "-" else EmptyString)
        +:+ str_of_Z (n / scale)%Z
        +:+ (match d with
            | O => EmptyString
            | _ => "." +:+ zfill d (str_of_Z (n mod scale)%Z)
            end)
  | Inf false => "inf"
  | Inf true => "-inf"
  | NaN => "nan"
  end.

(** ['{:.<d>%}'.format(x)]: the value times 100, in fixed notation, and a
    percent sign. *)
Definition format_pct (d : nat) (x : num) : string :=
  format_f d (num_mul x (Fin 100)) +:+ "%".

(** ** Rounding to binary64 *)

Definition pow2 (e : Z) : Q := Qpower 2 e.

(** The binade of a positive rational: the [e] with [2^e <= q < 2^(e+1)]. *)
Definition binade (q : Q) : Z :=
  let e0 := (Z.log2 (Qnum q) - Z.log2 (Zpos (Qden q)))%Z in
  if Qle_bool (pow2 e0) q then e0 else (e0 - 1)%Z.

(** The unit in the last place: 53 bits of precision, and the spacing of
    the subnormal numbers below [2^-1022]. *)
Definition ulp (q : Q) : Q := pow2 (Z.max (binade q) (-1022) - 52).

Definition round_pos (a : Q) : Q :=
  inject_Z (round_half_even (a / ulp a)) * ulp a.

(** The binary64 number nearest to [q], ties to even.  The exponent is not
    bounded above: a result beyond the largest binary64 number, which IEEE
    arithmetic turns into an infinity, is left finite. *)
Definition round64 (q : Q) : Q :=
  if Qzero q then 0%Q
  else
    let a := Qabs q in
    let r := Qred (inject_Z (round_half_even (a / ulp a)) * ulp a) in
    if Qneg q then Qred (- r) else r.

(** The result of a float64 operation: the exact result, rounded. *)
Definition fl (x : num) : num :=
  match x with
  | Fin q => Fin (round64 q)
  | _ => x
  end.

(** The binary64 values of the literal [0.8] and of [1 - 0.8]. *)
Definition float_0_8 : Q := Eval vm_compute in round64 0.8.
Definition float_1_minus_0_8 : Q := Eval vm_compute in round64 (1 - float_0_8).

(** ** Python built-ins *)

(** [max(l)] and [min(l)] under a key: the first item is kept until a later
    one compares strictly greater (smaller); an empty sequence raises
    [ValueError]. *)
Definition py_max_by {A K : Type} (gt : K -> K -> bool) (key : A -> K)
    (l : list A) : result A :=
  match l with
  | [] => Raise ValueError
  | x :: rest =>
      Ok (foldl (fun best y => if gt (key y) (key best) then y else best) x rest)
  end.

Definition py_min_by {A K : Type} (lt : K -> K -> bool) (key : A -> K)
    (l : list A) : result A :=
  match l with
  | [] => Raise ValueError
  | x :: rest =>
      Ok (foldl (fun best y => if lt (key y) (key best) then y else best) x rest)
  end.

Definition Qgtb (a b : Q) : bool := negb (Qle_bool a b).
Definition Qltb (a b : Q) : bool := negb (Qle_bool b a).

Definition is_empty {A : Type} (l : list A) : bool :=
  match l with
  | [] => true
  | _ => false
  end.

(** [l or [0]] *)
Definition or_zero (l : list Q) : list Q :=
  match l with
  | [] => [0%Q]
  | _ => l
  end.

(** The characters of a string, as [for c in s] yields them. *)
Fixpoint chars (s : string) : list string :=
  match s with
  | EmptyString => []
  | String c rest => String c EmptyString :: chars rest
  end.

(** [s.replace(old, new)] for a pattern of one character. *)
Fixpoint str_replace (old : ascii) (new : string) (s : string) : string :=
  match s with
  | EmptyString => EmptyString
  | String c rest =>
      (if Ascii.eqb c old then new else String c EmptyString)
        +:+ str_replace old new rest
  end.

Definition amp : ascii := Eval cbv in ascii_of_nat 38.
Definition lt_sign : ascii := Eval cbv in ascii_of_nat 60.
Definition gt_sign : ascii := Eval cbv in ascii_of_nat 62.
Definition dquote_char : ascii := Eval cbv in ascii_of_nat 34.
Definition space : ascii := Eval cbv in ascii_of_nat 32.

(** [cgi.escape(s, quote)] of the Python standard library: three passes of
    [replace], the ampersand first, and a fourth for the double quote when
    [quote] is true.  The apostrophe is not translated. *)
Definition cgi_escape (s : string) (quote : bool) : string :=
  let s := str_replace amp "&amp;" s in
  let s := str_replace lt_sign "&lt;" s in
  let s := str_replace gt_sign "&gt;" s in
  if quote then str_replace dquote_char "&quot;" s else s.

(** [name="value"] *)
Definition attr (name value : string) : string :=
  name +:+ "=" +:+ dquote +:+ value +:+ dquote.

(** ** Data model (eli5.base) *)

(** Modelled from the spec: [FormattedFeatureName] of
    [eli5/formatters/features.py], a pre-formatted marker that carries its
    own rendering, returned by its [format()] method. *)
Record FormattedFeatureName : Type := { format : string }.

(** Values of the fields of a candidate record. *)
Inductive pyval : Type :=
| VStr (s : string)
| VInt (z : Z).

(** A feature label: a pre-formatted marker, a Python list of dicts (the
    candidates of an unhashed feature), or a plain string. *)
Inductive feature_label : Type :=
| Formatted (f : FormattedFeatureName)
| PyList (items : list (gmap string pyval))
| Plain (s : string).

(** Modelled from the spec: the feature weights of a target are split into
    a [pos] and a [neg] list of (feature, weight) pairs, either of which may
    be [None]; a target explanation has an optional probability and an
    optional score. *)
Record FeatureWeights : Type := {
  pos : option (list (feature_label * Q));
  neg : option (list (feature_label * Q))
}.

Record TargetExplanation : Type := {
  target : string;
  feature_weights : FeatureWeights;
  proba : option Q;
  score : option Q
}.

(** A weighted span: (feature, [(start, end), ...], weight). *)
Definition WeightedSpan : Type := string * list (Z * Z) * Q.

Record WeightedSpans : Type := {
  analyzer : string;
  document : string;
  weighted_spans : list WeightedSpan
}.

(** ** Span weight accumulation (render_weighted_spans, lines 97-104) *)

(** [Counter(f for f, _, _ in weighted_spans)] *)
Definition Counter (keys : list string) : gmap string nat :=
  foldl (fun m k => <[k := S (default O (m !! k))]> m) ∅ keys.

(** [c[k]]: a missing key counts 0. *)
Definition counter_get (c : gmap string nat) (k : string) : nat :=
  default O (c !! k).

(** A slice bound on a sequence of length [n]: a negative bound counts from
    the end, and every bound is clipped to [0, n]. *)
Definition slice_bound (n i : Z) : Z :=
  if (i <? 0)%Z then Z.max 0 (i + n) else Z.min i n.

(** [a[start:stop] += w] on a numpy array. *)
Definition slice_add (a : list num) (start stop : Z) (w : num) : list num :=
  let n := Z.of_nat (length a) in
  let lo := slice_bound n start in
  let hi := slice_bound n stop in
  imap (fun i x =>
          if ((lo <=? Z.of_nat i) && (Z.of_nat i <? hi))%Z
          then num_add x w else x) a.

(** One turn of the inner loop; the state is the loop variable [weight],
    which the body reassigns, and the array. *)
Definition range_step (preserve_density : bool) (count : nat)
    (st : num * list num) (r : Z * Z) : num * list num :=
  let '(weight, char_weights) := st in
  let '(start, stop) := r in
  let weight :=
    if preserve_density then num_div weight (num_of_Z (stop - start))
    else weight in
  let weight := num_div weight (num_of_Z (Z.of_nat count)) in
  (weight, slice_add char_weights start stop weight).

(** One turn of the outer loop. *)
Definition span_step (preserve_density : bool)
    (feature_counts : gmap string nat)
    (char_weights : list num) (ws : WeightedSpan) : list num :=
  let '(feature, spans, weight) := ws in
  snd (foldl (range_step preserve_density (counter_get feature_counts feature))
             (Fin weight, char_weights) spans).

(** The array [char_weights] after the two loops. *)
Definition char_weights (doc_length : nat) (weighted_spans : list WeightedSpan)
    (preserve_density : bool) : list num :=
  let zeros := replicate doc_length (Fin 0) in
  let feature_counts := Counter (map (fun ws => fst (fst ws)) weighted_spans) in
  foldl (span_step preserve_density feature_counts) zeros weighted_spans.

(** The accumulation as the specification words it: every range starts
    from a fresh [w = span.weight]. *)
Definition range_contribution (preserve_density : bool) (count : nat)
    (weight : Q) (r : Z * Z) : num :=
  let '(start, stop) := r in
  let w := Fin weight in
  let w :=
    if preserve_density then num_div w (num_of_Z (stop - start)) else w in
  num_div w (num_of_Z (Z.of_nat count)).

Definition accumulate_spec (doc_length : nat)
    (weighted_spans : list WeightedSpan) (preserve_density : bool)
    : list num :=
  let feature_counts := Counter (map (fun ws => fst (fst ws)) weighted_spans) in
  foldl (fun a (ws : WeightedSpan) =>
           let '(feature, spans, weight) := ws in
           foldl (fun a r =>
                    slice_add a (fst r) (snd r)
                      (range_contribution preserve_density
                         (counter_get feature_counts feature) weight r))
                 a spans)
        (replicate doc_length (Fin 0)) weighted_spans.

(** ** Escaping, hue, opacity, weight range *)

Definition html_escape (text : string) : string := cgi_escape text true.

Definition _hue (weight : num) : Z :=
  if num_gtb weight (Fin 0) then 120%Z else 0%Z.

(** The number that [_weight_opacity] formats, every operation rounded to
    binary64. *)
Definition opacity (weight weight_range : num) : num :=
  let min_opacity := Fin float_0_8 in
  let rel_weight := fl (num_div (num_abs weight) weight_range) in
  fl (num_add min_opacity
        (fl (num_mul (fl (num_sub (Fin 1) min_opacity)) rel_weight))).

Definition _weight_opacity (weight weight_range : num) : string :=
  format_f 2 (opacity weight weight_range).

(** The formula [0.8 + 0.2 * (|weight| / weight_range)] with the constant
    0.2 written out, every operation rounded to binary64; the source has
    [1 - min_opacity] in its place, which is the float
    0.19999999999999996. *)
Definition float_0_2 : Q := Eval vm_compute in round64 0.2.

Definition opacity_as_stated (weight weight_range : num) : num :=
  let rel_weight := fl (num_div (num_abs weight) weight_range) in
  fl (num_add (Fin float_0_8) (fl (num_mul (Fin float_0_2) rel_weight))).

(** The argument of [_weight_range]: a list of targets or the feature
    weights of one target. *)
Inductive weights_arg : Type :=
| TargetList (ts : list TargetExplanation)
| Weights (w : FeatureWeights).

(** [max([abs(coef) for lst in [w.pos, w.neg] for _, coef in lst or []]
    or [0])] *)
Definition feature_weights_range (w : FeatureWeights) : result Q :=
  py_max_by Qgtb id
    (or_zero (map (fun fc => Qabs (snd fc))
                  (default [] (pos w) ++ default [] (neg w)))).

Definition _weight_range (weights : weights_arg) : result Q :=
  match weights with
  | TargetList ts =>
      rs ← mapM (fun t => feature_weights_range (feature_weights t)) ts;
      py_max_by Qgtb id (or_zero rs)
  | Weights w => feature_weights_range w
  end.

(** ** Feature labels *)

(** The side of a run of spaces: ['left'], ['right'] or ['center']. *)
Inductive side : Set := SideLeft | SideRight | SideCenter.

Inductive run : Type :=
| Spaces (n : nat)
| Text (t : string).

(** The maximal runs of spaces of a string and the text between them. *)
Fixpoint runs (s : string) : list run :=
  match s with
  | EmptyString => []
  | String c rest =>
      if Ascii.eqb c space then
        match runs rest with
        | Spaces n :: tl => Spaces (S n) :: tl
        | tl => Spaces 1 :: tl
        end
      else
        match runs rest with
        | Text t :: tl => Text (String c t) :: tl
        | tl => Text (String c EmptyString) :: tl
        end
  end.

Fixpoint replace_runs (replacer : nat -> side -> string) (at_start : bool)
    (rs : list run) : string :=
  match rs with
  | [] => EmptyString
  | Text t :: rest => t +:+ replace_runs replacer false rest
  | Spaces n :: rest =>
      replacer n (if at_start then SideLeft
                  else match rest with
                       | [] => SideRight
                       | _ => SideCenter
                       end)
        +:+ replace_runs replacer false rest
  end.

(** Modelled from the spec: [replace_spaces] of [eli5/formatters/utils.py]
    replaces every maximal run of consecutive space characters by
    [replacer(n, side)], where [n] is the length of the run and [side] tells
    whether the run is at the start, at the end or in the interior of the
    string. *)
Definition replace_spaces (s : string) (replacer : nat -> side -> string)
    : string :=
  replace_runs replacer true (runs s).

(** The closure [replacer] of [_format_single_feature]. *)
Definition replacer (weight : Q) (n_spaces : nat) (sd : side) : string :=
  let m := "0.1em" in
  let margins :=
    match sd with
    | SideLeft => (m, "0")
    | SideRight => ("0", m)
    | SideCenter => (m, m)
    end in
  let style :=
    String.concat "; "
      [ "background-color: hsl(" +:+ str_of_Z (_hue weight) +:+ ", 80%, 70%)";
        "margin: 0 " +:+ fst margins +:+ " 0 " +:+ snd margins ] in
  "<span " +:+ attr "style" style +:+ " "
    +:+ attr "title"
         (if Nat.eqb n_spaces 1 then "A space symbol"
          else str_of_Z (Z.of_nat n_spaces) +:+ " space symbols")
    +:+ ">" +:+ str_repeat "&emsp;" n_spaces +:+ "</span>".

Definition _format_single_feature (feature : string) (weight : Q)
    (hl_spaces : bool) : string :=
  let feature := html_escape feature in
  if negb hl_spaces then feature
  else replace_spaces feature (replacer weight).

(** [d[k]] for a field that holds a string, an integer. *)
Definition get_str (d : gmap string pyval) (k : string) : result string :=
  match d !! k with
  | Some (VStr s) => Ok s
  | Some (VInt _) => Raise AttributeError
  | None => Raise KeyError
  end.

Definition get_int (d : gmap string pyval) (k : string) : result Z :=
  match d !! k with
  | Some (VInt z) => Ok z
  | Some (VStr _) => Raise AttributeError
  | None => Raise KeyError
  end.

(** Modelled from the spec: [format_signed] of [eli5/formatters/utils.py]
    renders a candidate record signed, with the prefix ['-'] if its sign is
    negative and nothing if it is positive, the name fed through the
    formatter when one is given. *)
Definition sign_prefix (sign : Z) : string :=
  if (sign <? 0)%Z then "-" else EmptyString.

Definition format_signed (feature : gmap string pyval)
    (formatter : option (string -> string)) : result string :=
  sign ← get_int feature "sign";
  name ← get_str feature "name";
  Ok (sign_prefix sign
        +:+ match formatter with
           | Some fmt => fmt name
           | None => name
           end).

Definition _format_unhashed_feature (feature : list (gmap string pyval))
    (weight : Q) (hl_spaces : bool) : result string :=
  match feature with
  | [] => Ok EmptyString
  | first :: rest =>
      html ← format_signed first
               (Some (fun x => _format_single_feature x weight hl_spaces));
      match rest with
      | [] => Ok html
      | _ =>
          titles ← mapM (fun f => s ← format_signed f None;
                                  Ok (html_escape s)) rest;
          Ok (html +:+ " <span " +:+ attr "title" (String.concat newline titles)
                   +:+ ">&hellip;</span>")
      end
  end.

Definition has_key (k : string) (d : gmap string pyval) : bool :=
  bool_decide (is_Some (d !! k)).

(** The dispatch on the shape of the feature.  A list that fails the test
    on its items reaches [_format_single_feature], where [cgi.escape] calls
    [replace] on it: a list has no such method. *)
Definition _format_feature (feature : feature_label) (weight : Q)
    (hl_spaces : bool) : result string :=
  match feature with
  | Formatted f => Ok (format f)
  | PyList items =>
      if forallb (fun x => has_key "name" x && has_key "sign" x) items
      then _format_unhashed_feature items weight hl_spaces
      else Raise AttributeError
  | Plain s => Ok (_format_single_feature s weight hl_spaces)
  end.

(** ** Top target *)

Definition not_None {A : Type} (o : option A) : bool :=
  match o with
  | Some _ => true
  | None => false
  end.

(** The keys [t.proba] and [t.score] are compared only after the test that
    none of them is [None]. *)
Definition _get_top_target (targets : list TargetExplanation)
    : result (option TargetExplanation) :=
  if forallb (fun t => not_None (proba t)) targets then
    t ← py_max_by Qgtb (fun t => default 0%Q (proba t)) targets; Ok (Some t)
  else if forallb (fun t => not_None (score t)) targets then
    t ← py_max_by Qgtb (fun t => default 0%Q (score t)) targets; Ok (Some t)
  else Ok None.

(** ** Colours and the colorizer *)

Record hsl : Type := { hue : Z; saturation : Z; lightness : num }.

(** ['hsl({}, {:.2%}, {:.2%})'.format(hue, saturation, lightness)] *)
Definition css_hsl (c : hsl) : string :=
  "hsl(" +:+ str_of_Z (hue c) +:+ ", " +:+ format_pct 2 (num_of_Z (saturation c))
    +:+ ", " +:+ format_pct 2 (lightness c) +:+ ")".

Definition default_min_lightness : Q := 0.8.

(** [{'pos': 1, 'neg': -1}] *)
Definition signs : gmap string Z := <["pos" := 1%Z]> (<["neg" := (-1)%Z]> ∅).

Section Colour.

(** [x ** 0.7], the power function of the C library: it has no rational
    counterpart, and the embedding is parametric in it. *)
Variable pow07 : num -> num.

(** The locals [hue], [saturation] and [lightness] of [_weight_color].  The
    division is that of numpy scalars; called with plain Python numbers and
    a zero range, the source raises [ZeroDivisionError] at this point. *)
Definition weight_hsl (weight weight_range : num) (min_lightness : Q)
    : hsl :=
  let rel_weight := pow07 (num_div (num_abs weight) weight_range) in
  {| hue := _hue weight;
     saturation := 1;
     lightness :=
       num_sub (Fin 1)
         (num_mul (num_sub (Fin 1) (Fin min_lightness)) rel_weight) |}.

Definition _weight_color (weight weight_range : num) (min_lightness : Q)
    : string :=
  css_hsl (weight_hsl weight weight_range min_lightness).

Definition _remaining_weight_color (ws : list (feature_label * Q))
    (weight_range : Q) (pos_neg : string) : result string :=
  sign ← match signs !! pos_neg with
         | Some s => Ok s
         | None => Raise KeyError
         end;
  '(weight, weight_range) ←
    (if is_empty ws && Qzero weight_range then
       Ok (num_of_Z sign, Fin 1)
     else if is_empty ws then
       Ok (num_mul (num_of_Z sign) (Fin weight_range), Fin weight_range)
     else
       weight ← py_min_by Qltb Qabs (map snd ws);
       Ok (Fin weight, Fin weight_range));
  Ok (_weight_color weight weight_range default_min_lightness).

Definition _colorize (token : string) (weight weight_range : num)
    : string :=
  let token := html_escape token in
  if isclose0 weight then
    "<span "
      +:+ attr "style" ("opacity: " +:+ _weight_opacity weight weight_range)
      +:+ ">" +:+ token +:+ "</span>"
  else
    "<span "
      +:+ attr "style"
           ("background-color: " +:+ _weight_color weight weight_range 0.6
              +:+ "; opacity: " +:+ _weight_opacity weight weight_range)
      +:+ " " +:+ attr "title" (format_f 3 weight)
      +:+ ">" +:+ token +:+ "</span>".

Definition render_weighted_spans (weighted_spans_data : WeightedSpans)
    (preserve_density : option bool) : result string :=
  let preserve_density :=
    match preserve_density with
    | None => String.prefix "char" (analyzer weighted_spans_data)
    | Some b => b
    end in
  let doc := document weighted_spans_data in
  let char_weights :=
    char_weights (String.length doc) (weighted_spans weighted_spans_data)
      preserve_density in
  weight_range ← py_max_by num_gtb id (map num_abs char_weights);
  Ok (String.concat EmptyString
        (map (fun tw => _colorize (fst tw) (snd tw) weight_range)
             (zip (chars doc) char_weights))).

End Colour.

(** A stand-in for the power function, to run the embedding on examples:
    exact at 0 and 1, where [x ** 0.7] is rational. *)
Definition pow_stand_in (x : num) : num := x.

(** ** Vocabulary of the properties *)

(** What [html_escape] does to one character. *)
Definition escape_char (c : ascii) : string :=
  if Ascii.eqb c amp then "&amp;"
  else if Ascii.eqb c lt_sign then "&lt;"
  else if Ascii.eqb c gt_sign then "&gt;"
  else if Ascii.eqb c dquote_char then "&quot;"
  else String c EmptyString.

(** The text with every character translated by [escape_char]. *)
Fixpoint escape_chars (s : string) : string :=
  match s with
  | EmptyString => EmptyString
  | String c rest => escape_char c +:+ escape_chars rest
  end.

Definition entity_names : list string := ["amp;"; "lt;"; "gt;"; "quot;"].

(** A text with no literal [<], [>] or double quote, and where every [&]
    starts one of the four entities. *)
Fixpoint escaped (s : string) : bool :=
  match s with
  | EmptyString => true
  | String c rest =>
      (if Ascii.eqb c amp
       then existsb (fun e => String.prefix e rest) entity_names
       else negb (Ascii.eqb c lt_sign || Ascii.eqb c gt_sign
                  || Ascii.eqb c dquote_char))
      && escaped rest
  end.

Definition escape_run (r : run) : run :=
  match r with
  | Spaces n => Spaces n
  | Text t => Text (html_escape t)
  end.

(** A candidate record with the name [n] and the sign [s]. *)
Definition is_candidate (d : gmap string pyval) (ns : string * Z) : Prop :=
  d !! "name" = Some (VStr (fst ns)) /\ d !! "sign" = Some (VInt (snd ns)).

Definition candidate (name : string) (sign : Z) : gmap string pyval :=
  <["name" := VStr name]> (<["sign" := VInt sign]> ∅).



(** [m] is the item of [l] at index [i], no item of [l] is better than [m],
    and [m] is better than every item before it. *)
Definition first_best {A K : Type} (better : K -> K -> bool) (key : A -> K)
    (l : list A) (i : nat) (m : A) : Prop :=
  l !! i = Some m
  /\ (forall j y, l !! j = Some y -> better (key y) (key m) = false)
  /\ (forall j y, (j < i)%nat -> l !! j = Some y ->
                  better (key m) (key y) = true).

(** [t] is the first target of greatest value: the target at index [i],
    whose value [val t] no value exceeds and every earlier value is strictly
    below. *)
Definition first_max (val : TargetExplanation -> option Q)
    (targets : list TargetExplanation) (i : nat) (t : TargetExplanation)
    : Prop :=
  targets !! i = Some t
  /\ exists v, val t = Some v
     /\ (forall j t' v', targets !! j = Some t' -> val t' = Some v' ->
                         (v' <= v)%Q)
     /\ (forall j t' v', (j < i)%nat -> targets !! j = Some t' ->
                         val t' = Some v' -> (v' < v)%Q).

(** The collapsed indicator of the candidates after the first: nothing if
    there is none, otherwise an ellipsis whose title lists them signed and
    escaped, one per line. *)
Definition more_candidates (rest : list (string * Z)) : string :=
  match rest with
  | [] => EmptyString
  | _ =>
      " <span "
        +:+ attr "title"
              (String.concat newline
                 (map (fun ns => sign_prefix (snd ns) +:+ html_escape (fst ns))
                      rest))
        +:+ ">&hellip;</span>"
  end.

(** ** Sample data *)

Definition sample_doc : WeightedSpans :=
  {| analyzer := "word"; document := "ab";
     weighted_spans := [("f", [(0, 1)], 2%Q)] |}.

Definition target_a : TargetExplanation :=
  {| target := "a"; feature_weights := {| pos := None; neg := None |};
     proba := Some 0.3%Q; score := None |}.
Definition target_b : TargetExplanation :=
  {| target := "b"; feature_weights := {| pos := None; neg := None |};
     proba := Some 0.9%Q; score := Some 2%Q |}.
Definition target_c : TargetExplanation :=
  {| target := "c"; feature_weights := {| pos := None; neg := None |};
     proba := Some 0.9%Q; score := Some 1%Q |}.

(** ** More of the module, and the vocabulary of its properties *)

(** The filter [fi_weight_range] of the template environment (line 28):
    [max([abs(x[1]) for x in w] or [0])] over the feature importances, each
    a tuple whose second component is the importance. *)
Definition fi_weight_range (w : list (feature_label * Q)) : result Q :=
  py_max_by Qgtb id (or_zero (map (fun x => Qabs (snd x)) w)).

(** The ranges of a weighted span. *)
Definition span_ranges (ws : WeightedSpan) : list (Z * Z) := snd (fst ws).

(** The positions that the slice [start:stop] of a sequence of length [n]
    covers. *)
Definition in_slice (n : nat) (r : Z * Z) (i : nat) : Prop :=
  (slice_bound (Z.of_nat n) (fst r) <= Z.of_nat i
   < slice_bound (Z.of_nat n) (snd r))%Z.

Definition is_fin (x : num) : Prop := exists q, x = Fin q.

(** The coefficients of the [pos] and [neg] lists of a target. *)
Definition coefs (w : FeatureWeights) : list Q :=
  map snd (default [] (pos w) ++ default [] (neg w)).

Definition has_space (s : string) : bool :=
  existsb (fun c => Ascii.eqb c space) (list_ascii_of_string s).

Definition has_special (s : string) : bool :=
  existsb (fun c => Ascii.eqb c amp || Ascii.eqb c lt_sign
                    || Ascii.eqb c gt_sign || Ascii.eqb c dquote_char)
          (list_ascii_of_string s).

(** * Properties *)

(** ** Arithmetic helpers *)

Lemma Qzero_pos (q : Q) : (0 < q)%Q -> Qzero q = false.
Proof.
  intros H. unfold Qzero. destruct (Qeq_bool q 0) eqn:E; [|reflexivity].
  apply Qeq_bool_eq in E. rewrite E in H. exfalso. apply (Qlt_irrefl 0), H.
Qed.

Lemma Qneg_nonneg (q : Q) : (0 <= q)%Q -> Qneg q = false.
Proof.
  intros H. unfold Qneg. apply Qle_bool_iff in H. now rewrite H.
Qed.

Lemma Qgtb_lt (a b : Q) : Qgtb a b = true <-> (b < a)%Q.
Proof.
  unfold Qgtb. rewrite Bool.negb_true_iff. split.
  - intros H. apply Qnot_le_lt. intros Hle. apply Qle_bool_iff in Hle. congruence.
  - intros H. destruct (Qle_bool a b) eqn:E; [|reflexivity].
    apply Qle_bool_iff in E. exfalso. apply (Qlt_not_le _ _ H E).
Qed.

Lemma Qltb_lt (a b : Q) : Qltb a b = true <-> (a < b)%Q.
Proof. apply (Qgtb_lt b a). Qed.

Lemma ratio_in_unit (w r : Q) :
  (0 < r)%Q -> (Qabs w <= r)%Q -> (0 <= Qabs w / r)%Q /\ (Qabs w / r <= 1)%Q.
Proof.
  intros Hr Hw. split.
  - apply Qle_shift_div_l; [exact Hr|]. rewrite Qmult_0_l. apply Qabs_nonneg.
  - apply Qle_shift_div_r; [exact Hr|]. now rewrite Qmult_1_l.
Qed.

(** Rounding keeps a value between two integers between them. *)
Lemma round_half_even_between (q : Q) (lo hi : Z) :
  (inject_Z lo <= q)%Q -> (q <= inject_Z hi)%Q ->
  (lo <= round_half_even q <= hi)%Z.
Proof.
  intros Hlo Hhi.
  assert (Hf1 : (lo <= Qfloor q)%Z).
  { rewrite <- (Qfloor_Z lo). now apply Qfloor_resp_le. }
  assert (Hf2 : (Qfloor q <= hi)%Z).
  { rewrite <- (Qfloor_Z hi). now apply Qfloor_resp_le. }
  assert (Hup : (inject_Z (Qfloor q) < q)%Q -> (Qfloor q + 1 <= hi)%Z).
  { intros Hlt.
    assert (H : (inject_Z (Qfloor q) < inject_Z hi)%Q) by (eapply Qlt_le_trans; eauto).
    rewrite <- Zlt_Qlt in H. lia. }
  unfold round_half_even.
  destruct (Qcompare_spec (q - inject_Z (Qfloor q)) (1 # 2)) as [E|E|E].
  - destruct (Z.even (Qfloor q)); [lia|].
    split; [lia|]. apply Hup. lra.
  - lia.
  - split; [lia|]. apply Hup. lra.
Qed.

(** ** Rounding to binary64 *)

Lemma round_half_even_range (x : Q) :
  (Qfloor x <= round_half_even x <= Qfloor x + 1)%Z.
Proof.
  unfold round_half_even. destruct (Qcompare _ _); [|lia|lia].
  destruct (Z.even _); lia.
Qed.

Lemma round_half_even_mono (x y : Q) :
  (x <= y)%Q -> (round_half_even x <= round_half_even y)%Z.
Proof.
  intros Hxy.
  pose proof (Qfloor_resp_le x y Hxy) as Hf.
  pose proof (round_half_even_range x) as Hx.
  pose proof (round_half_even_range y) as Hy.
  destruct (Z.eq_dec (Qfloor x) (Qfloor y)) as [E|E]; [|lia].
  unfold round_half_even in *. rewrite <- E in *.
  destruct (Qcompare_spec (x - inject_Z (Qfloor x)) (1 # 2)) as [H1|H1|H1];
    destruct (Qcompare_spec (y - inject_Z (Qfloor x)) (1 # 2)) as [H2|H2|H2];
    try lia; try (exfalso; lra); destruct (Z.even (Qfloor x)); lia.
Qed.

Lemma round_half_even_Z (z : Z) : round_half_even (inject_Z z) = z.
Proof.
  unfold round_half_even. rewrite Qfloor_Z.
  destruct (Qcompare_spec (inject_Z z - inject_Z z) (1 # 2)) as [H|H|H];
    [exfalso; lra | reflexivity | exfalso; lra].
Qed.

Lemma round_half_even_error (x : Q) :
  (x - (1 # 2) <= inject_Z (round_half_even x))%Q
  /\ (inject_Z (round_half_even x) <= x + (1 # 2))%Q.
Proof.
  pose proof (Qfloor_le x) as H1. pose proof (Qlt_floor x) as H2.
  rewrite inject_Z_plus in H2. change (inject_Z 1) with 1%Q in H2.
  unfold round_half_even.
  destruct (Qcompare_spec (x - inject_Z (Qfloor x)) (1 # 2)) as [H|H|H].
  - destruct (Z.even _); [|rewrite inject_Z_plus; change (inject_Z 1) with 1%Q];
      split; lra.
  - split; lra.
  - rewrite inject_Z_plus. change (inject_Z 1) with 1%Q. split; lra.
Qed.

Lemma round_half_even_comp (x y : Q) :
  x == y -> round_half_even x = round_half_even y.
Proof.
  intros E. apply Z.le_antisymm; apply round_half_even_mono; rewrite E;
    apply Qle_refl.
Qed.

(** Powers of two. *)

Lemma two_nonzero : ~ (2 == 0)%Q.
Proof. discriminate. Qed.

Lemma pow2_pos (e : Z) : (0 < pow2 e)%Q.
Proof. apply Qpower_0_lt. reflexivity. Qed.

Lemma pow2_add (a b : Z) : pow2 (a + b) == pow2 a * pow2 b.
Proof. apply Qpower_plus, two_nonzero. Qed.

Lemma pow2_succ (a : Z) : pow2 (a + 1) == 2 * pow2 a.
Proof. rewrite pow2_add. change (pow2 1) with 2%Q. ring. Qed.

Lemma pow2_mono (a b : Z) : (a <= b)%Z -> (pow2 a <= pow2 b)%Q.
Proof. intros H. apply Qpower_le_compat_l; [exact H|discriminate]. Qed.

Lemma pow2_Z (n : Z) : (0 <= n)%Z -> pow2 n == inject_Z (2 ^ n).
Proof. intros H. symmetry. apply (Zpower_Qpower 2 n H). Qed.

Lemma pow2_lt_inv (a b : Z) : (pow2 a < pow2 b)%Q -> (a < b)%Z.
Proof.
  intros H. destruct (Z_lt_le_dec a b) as [Hlt|Hle]; [exact Hlt|].
  apply pow2_mono in Hle. exfalso. lra.
Qed.

(** The binade of a positive rational. *)

Lemma Qdiv_le_cross (a b c d : Q) :
  (0 < b)%Q -> (0 < d)%Q -> (a * d <= c * b)%Q -> (a / b <= c / d)%Q.
Proof.
  intros Hb Hd H. apply Qle_shift_div_r; [exact Hb|].
  assert (E : c / d * b == c * b / d) by (field; lra).
  rewrite E. apply Qle_shift_div_l; [exact Hd|exact H].
Qed.

Lemma Qdiv_lt_cross (a b c d : Q) :
  (0 < b)%Q -> (0 < d)%Q -> (a * d < c * b)%Q -> (a / b < c / d)%Q.
Proof.
  intros Hb Hd H. apply Qlt_shift_div_r; [exact Hb|].
  assert (E : c / d * b == c * b / d) by (field; lra).
  rewrite E. apply Qlt_shift_div_l; [exact Hd|exact H].
Qed.

Lemma log2_bracket (n : Z) :
  (0 < n)%Z ->
  (0 < inject_Z (2 ^ Z.log2 n))%Q
  /\ (inject_Z (2 ^ Z.log2 n) <= inject_Z n)%Q
  /\ (inject_Z n < 2 * inject_Z (2 ^ Z.log2 n))%Q.
Proof.
  intros Hn. destruct (Z.log2_spec n Hn) as [H1 H2].
  pose proof (Z.log2_nonneg n) as H0.
  rewrite Z.pow_succ_r in H2 by exact H0.
  assert (Hp : (0 < 2 ^ Z.log2 n)%Z) by (apply Z.pow_pos_nonneg; lia).
  repeat split.
  - change 0%Q with (inject_Z 0). now rewrite <- Zlt_Qlt.
  - now rewrite <- Zle_Qle.
  - change 2%Q with (inject_Z 2). rewrite <- inject_Z_mult. now rewrite <- Zlt_Qlt.
Qed.

Lemma pow2_sub_log2 (n d : Z) :
  pow2 (Z.log2 n - Z.log2 d)
  == inject_Z (2 ^ Z.log2 n) / inject_Z (2 ^ Z.log2 d).
Proof.
  unfold pow2. rewrite Qpower_minus by apply two_nonzero.
  rewrite <- !(Zpower_Qpower 2) by apply Z.log2_nonneg. reflexivity.
Qed.

Lemma binade_bracket (q : Q) :
  (0 < q)%Q ->
  (pow2 (binade q) <= q)%Q /\ (q < pow2 (binade q + 1))%Q.
Proof.
  intros Hq. destruct q as [n d]. 
  assert (Hn : (0 < n)%Z).
  { unfold Qlt in Hq. cbn in Hq. lia. }
  destruct (log2_bracket n Hn) as (Ha0 & Ha1 & Ha2).
  destruct (log2_bracket (Zpos d) eq_refl) as (Hk0 & Hk1 & Hk2).
  pose proof (pow2_sub_log2 n (Zpos d)) as E0.
  assert (Eq : n # d == inject_Z n / inject_Z (Zpos d)) by apply Qmake_Qdiv.
  assert (HN : (0 < inject_Z n)%Q).
  { change 0%Q with (inject_Z 0). now rewrite <- Zlt_Qlt. }
  assert (HD : (0 < inject_Z (Zpos d))%Q) by reflexivity.
  set (A := inject_Z (2 ^ Z.log2 n)) in *.
  set (K := inject_Z (2 ^ Z.log2 (Zpos d))) in *.
  set (N := inject_Z n) in *. set (D := inject_Z (Zpos d)) in *.
  assert (Hlo : (pow2 (Z.log2 n - Z.log2 (Zpos d) - 1) <= n # d)%Q).
  { assert (E : pow2 (Z.log2 n - Z.log2 (Zpos d) - 1) == A / (2 * K)).
    { replace (Z.log2 n - Z.log2 (Zpos d) - 1)%Z
        with ((Z.log2 n - Z.log2 (Zpos d)) + -1)%Z by lia.
      rewrite pow2_add, E0. change (pow2 (-1)) with (1 # 2). field. lra. }
    rewrite E, Eq. apply Qdiv_le_cross; [lra|lra|nra]. }
  assert (Hhi : (n # d < pow2 (Z.log2 n - Z.log2 (Zpos d) + 1))%Q).
  { rewrite pow2_succ, E0, Eq.
    assert (E : 2 * (A / K) == (2 * A) / K) by (field; lra).
    rewrite E. apply Qdiv_lt_cross; [lra|lra|nra]. }
  unfold binade. cbn [Qnum Qden].
  destruct (Qle_bool (pow2 (Z.log2 n - Z.log2 (Zpos d))) (n # d)) eqn:T.
  - apply Qle_bool_iff in T. split; [exact T|exact Hhi].
  - split; [exact Hlo|].
    replace (Z.log2 n - Z.log2 (Zpos d) - 1 + 1)%Z
      with (Z.log2 n - Z.log2 (Zpos d))%Z by lia.
    apply Qnot_le_lt. intros H. apply Qle_bool_iff in H. congruence.
Qed.

Lemma binade_mono (x y : Q) :
  (0 < x)%Q -> (x <= y)%Q -> (binade x <= binade y)%Z.
Proof.
  intros Hx Hxy.
  destruct (binade_bracket x Hx) as [Hx1 Hx2].
  destruct (binade_bracket y) as [Hy1 Hy2]; [lra|].
  assert (H : (pow2 (binade x) < pow2 (binade y + 1))%Q) by lra.
  apply pow2_lt_inv in H. lia.
Qed.

(** Rounding a positive rational. *)

Lemma ulp_pos (a : Q) : (0 < ulp a)%Q.
Proof. apply pow2_pos. Qed.

Lemma round_pos_mono (x y : Q) :
  (0 < x)%Q -> (x <= y)%Q -> (round_pos x <= round_pos y)%Q.
Proof.
  intros Hx Hxy. assert (Hy : (0 < y)%Q) by lra.
  pose proof (binade_mono x y Hx Hxy) as Hb.
  destruct (binade_bracket x Hx) as [Hx1 Hx2].
  destruct (binade_bracket y Hy) as [Hy1 Hy2].
  unfold round_pos, ulp.
  set (ex := Z.max (binade x) (-1022)). set (ey := Z.max (binade y) (-1022)).
  assert (Hex : (ex <= ey)%Z) by (unfold ex, ey; lia).
  pose proof (pow2_pos (ex - 52)) as Hsx. pose proof (pow2_pos (ey - 52)) as Hsy.
  destruct (Z.eq_dec ex ey) as [E|E].
  - rewrite <- E. apply Qmult_le_compat_r; [|lra].
    rewrite <- Zle_Qle. apply round_half_even_mono.
    apply Qdiv_le_cross; [lra|lra|]. nra.
  - assert (Hlt : (ex < ey)%Z) by lia.
    assert (Hey : ey = binade y) by (unfold ex, ey in *; lia).
    apply Qle_trans with (pow2 (ex + 1)).
    + assert (Hq : (x / pow2 (ex - 52) <= inject_Z (2 ^ 53))%Q).
      { apply Qle_shift_div_r; [exact Hsx|].
        rewrite <- (pow2_Z 53) by lia. rewrite <- pow2_add.
        replace (53 + (ex - 52))%Z with (ex + 1)%Z by lia.
        apply Qle_trans with (pow2 (binade x + 1)); [lra|].
        apply pow2_mono. unfold ex. lia. }
      apply round_half_even_mono in Hq. rewrite round_half_even_Z in Hq.
      rewrite Zle_Qle in Hq.
      replace (ex + 1)%Z with (53 + (ex - 52))%Z by lia.
      rewrite pow2_add, (pow2_Z 53) by lia.
      apply Qmult_le_compat_r; [exact Hq|lra].
    + apply Qle_trans with (pow2 ey); [apply pow2_mono; lia|].
      assert (Hq : (inject_Z (2 ^ 52) <= y / pow2 (ey - 52))%Q).
      { apply Qle_shift_div_l; [exact Hsy|].
        rewrite <- (pow2_Z 52) by lia. rewrite <- pow2_add.
        replace (52 + (ey - 52))%Z with ey by lia. rewrite Hey. exact Hy1. }
      apply round_half_even_mono in Hq. rewrite round_half_even_Z in Hq.
      rewrite Zle_Qle in Hq.
      replace ey with (52 + (ey - 52))%Z at 1 by lia.
      rewrite pow2_add, (pow2_Z 52) by lia.
      apply Qmult_le_compat_r; [exact Hq|lra].
Qed.

Lemma round_pos_error (x : Q) :
  (0 < x)%Q -> (x < 2)%Q ->
  (x - pow2 (-53) <= round_pos x)%Q /\ (round_pos x <= x + pow2 (-53))%Q.
Proof.
  intros Hx H2. destruct (binade_bracket x Hx) as [Hb1 Hb2].
  assert (Hb : (binade x < 1)%Z).
  { apply pow2_lt_inv. change (pow2 1) with 2%Q. lra. }
  unfold round_pos, ulp.
  set (e := (Z.max (binade x) (-1022) - 52)%Z).
  assert (He : (e <= -52)%Z) by (unfold e; lia).
  pose proof (pow2_pos e) as Hs.
  pose proof (pow2_mono e (-52) He) as Hs'.
  assert (E53 : pow2 (-52) == 2 * pow2 (-53)) by reflexivity.
  destruct (round_half_even_error (x / pow2 e)) as [H1 H3].
  assert (Ex : x / pow2 e * pow2 e == x) by (field; lra).
  split.
  - assert (H : ((x / pow2 e - (1 # 2)) * pow2 e
                 <= inject_Z (round_half_even (x / pow2 e)) * pow2 e)%Q)
      by (apply Qmult_le_compat_r; lra).
    nra.
  - assert (H : (inject_Z (round_half_even (x / pow2 e)) * pow2 e
                 <= (x / pow2 e + (1 # 2)) * pow2 e)%Q)
      by (apply Qmult_le_compat_r; lra).
    nra.
Qed.

(** Rounding is monotone, and within half a unit in the last place. *)

Lemma round64_pos (x : Q) : (0 < x)%Q -> round64 x == round_pos x.
Proof.
  intros Hx. unfold round64, round_pos.
  assert (Hz : Qzero x = false).
  { unfold Qzero. destruct (Qeq_bool x 0) eqn:E; [|reflexivity].
    apply Qeq_bool_eq in E. exfalso. lra. }
  assert (Hn : Qneg x = false).
  { unfold Qneg. assert (H : Qle_bool 0 x = true) by (apply Qle_bool_iff; lra).
    now rewrite H. }
  rewrite Hz, Hn. cbv zeta. rewrite Qred_correct.
  assert (E : Qabs x = x).
  { destruct x as [[|n|n] d]; try reflexivity. exfalso.
    unfold Qlt in Hx. cbn in Hx. lia. }
  now rewrite E.
Qed.

Lemma round64_zero (x : Q) : x == 0 -> round64 x = 0%Q.
Proof.
  intros E. unfold round64.
  assert (Hz : Qzero x = true) by (now apply Qeq_bool_iff).
  now rewrite Hz.
Qed.

Lemma round_pos_nonneg (x : Q) : (0 < x)%Q -> (0 <= round_pos x)%Q.
Proof.
  intros Hx. unfold round_pos. apply Qmult_le_0_compat; [|apply Qlt_le_weak, ulp_pos].
  change 0%Q with (inject_Z 0). rewrite <- Zle_Qle.
  rewrite <- (round_half_even_Z 0). apply round_half_even_mono.
  apply Qle_shift_div_l; [apply ulp_pos|].
  change (inject_Z 0) with 0%Q. rewrite Qmult_0_l. lra.
Qed.

Lemma round64_mono (x y : Q) :
  (0 <= x)%Q -> (x <= y)%Q -> (round64 x <= round64 y)%Q.
Proof.
  intros Hx Hxy.
  destruct (Qlt_le_dec 0 x) as [Hpos|Hle].
  - rewrite (round64_pos x Hpos), (round64_pos y) by lra.
    now apply round_pos_mono.
  - rewrite (round64_zero x) by now apply Qle_antisym.
    destruct (Qlt_le_dec 0 y) as [Hy|Hy].
    + rewrite (round64_pos y Hy). now apply round_pos_nonneg.
    + rewrite (round64_zero y); [lra|]. apply Qle_antisym; lra.
Qed.

Lemma round64_error (x : Q) :
  (0 <= x)%Q -> (x < 2)%Q ->
  (x - pow2 (-53) <= round64 x)%Q /\ (round64 x <= x + pow2 (-53))%Q.
Proof.
  intros Hx H2. pose proof (pow2_pos (-53)) as Hp.
  destruct (Qlt_le_dec 0 x) as [Hpos|Hle].
  - rewrite (round64_pos x Hpos). now apply round_pos_error.
  - rewrite (round64_zero x) by now apply Qle_antisym.
    split; lra.
Qed.

Lemma round64_comp (x y : Q) : (0 <= x)%Q -> x == y -> round64 x == round64 y.
Proof.
  intros Hx E. apply Qle_antisym; apply round64_mono; lra.
Qed.

(** ** The opacity *)

Lemma Qeq_le2 (x y : Q) : x == y -> (x <= y)%Q /\ (y <= x)%Q.
Proof. intros E. rewrite E. split; apply Qle_refl. Qed.

Lemma opacity_value (w r : Q) :
  (0 < r)%Q ->
  opacity (Fin w) (Fin r)
  = Fin (round64
           (Qred (float_0_8
                  + round64 (Qred (float_1_minus_0_8
                                   * round64 (Qred (Qred (Qabs w) / r))))))).
Proof.
  intros Hr. unfold opacity. cbn [num_abs num_div]. rewrite (Qzero_pos r Hr).
  change (fl (num_sub (Fin 1) (Fin float_0_8))) with (Fin float_1_minus_0_8).
  reflexivity.
Qed.

Lemma round64_float_0_8 : round64 float_0_8 = float_0_8.
Proof. vm_compute. reflexivity. Qed.

Lemma round64_float_1_minus_0_8 :
  round64 float_1_minus_0_8 = float_1_minus_0_8.
Proof. vm_compute. reflexivity. Qed.

Lemma round64_one : round64 1 = 1%Q.
Proof. vm_compute. reflexivity. Qed.

Lemma round64_0 : round64 0 = 0%Q.
Proof. reflexivity. Qed.

(** The three rounded steps of the opacity, for a ratio [x] within [0, 1]:
    the rounded ratio, the rounded product and the rounded sum, each within
    its bounds and within [2^-53] of the exact result. *)
Lemma opacity_steps (x : Q) :
  (0 <= x)%Q -> (x <= 1)%Q ->
  let r1 := round64 (Qred x) in
  let r2 := round64 (Qred (float_1_minus_0_8 * r1)) in
  let v := round64 (Qred (float_0_8 + r2)) in
  ((0 <= r1)%Q /\ (r1 <= 1)%Q
   /\ (x - pow2 (-53) <= r1)%Q /\ (r1 <= x + pow2 (-53))%Q)
  /\ ((0 <= r2)%Q /\ (r2 <= float_1_minus_0_8)%Q
      /\ (float_1_minus_0_8 * r1 - pow2 (-53) <= r2)%Q
      /\ (r2 <= float_1_minus_0_8 * r1 + pow2 (-53))%Q)
  /\ ((float_0_8 <= v)%Q /\ (v <= 1)%Q
      /\ (float_0_8 + r2 - pow2 (-53) <= v)%Q
      /\ (v <= float_0_8 + r2 + pow2 (-53))%Q).
Proof.
  intros H0 H1 r1 r2 v.
  assert (Hc : (0 < float_1_minus_0_8)%Q) by reflexivity.
  assert (Hc1 : (float_1_minus_0_8 < 1)%Q) by reflexivity.
  assert (Hm : (0 < float_0_8)%Q) by reflexivity.
  assert (Hmc : float_0_8 + float_1_minus_0_8 == 1) by reflexivity.
  destruct (Qeq_le2 _ _ (Qred_correct x)) as [Ex1 Ex2].
  assert (S1 : (0 <= r1)%Q /\ (r1 <= 1)%Q
               /\ (x - pow2 (-53) <= r1)%Q /\ (r1 <= x + pow2 (-53))%Q).
  { subst r1.
    pose proof (round64_mono 0 (Qred x) (Qle_refl 0)) as L.
    rewrite round64_0 in L.
    pose proof (round64_mono (Qred x) 1) as U. rewrite round64_one in U.
    destruct (round64_error (Qred x)) as [E1 E2]; [lra|lra|].
    repeat split; [apply L; lra | apply U; lra | lra | lra]. }
  destruct S1 as (A1 & A2 & A3 & A4).
  destruct (Qeq_le2 _ _ (Qred_correct (float_1_minus_0_8 * r1))) as [Ey1 Ey2].
  assert (S2 : (0 <= r2)%Q /\ (r2 <= float_1_minus_0_8)%Q
               /\ (float_1_minus_0_8 * r1 - pow2 (-53) <= r2)%Q
               /\ (r2 <= float_1_minus_0_8 * r1 + pow2 (-53))%Q).
  { subst r2.
    assert (B0 : (0 <= float_1_minus_0_8 * r1)%Q) by nra.
    assert (B1 : (float_1_minus_0_8 * r1 <= float_1_minus_0_8)%Q) by nra.
    pose proof (round64_mono 0 (Qred (float_1_minus_0_8 * r1)) (Qle_refl 0)) as L.
    rewrite round64_0 in L.
    pose proof (round64_mono (Qred (float_1_minus_0_8 * r1)) float_1_minus_0_8)
      as U.
    rewrite round64_float_1_minus_0_8 in U.
    destruct (round64_error (Qred (float_1_minus_0_8 * r1))) as [E1 E2];
      [lra|lra|].
    repeat split; [apply L; lra | apply U; lra | lra | lra]. }
  destruct S2 as (B1 & B2 & B3 & B4).
  destruct (Qeq_le2 _ _ (Qred_correct (float_0_8 + r2))) as [Ez1 Ez2].
  split; [repeat split; assumption|]. split; [repeat split; assumption|].
  subst v.
  pose proof (round64_mono float_0_8 (Qred (float_0_8 + r2))) as L.
  rewrite round64_float_0_8 in L.
  pose proof (round64_mono (Qred (float_0_8 + r2)) 1) as U.
  rewrite round64_one in U.
  destruct (round64_error (Qred (float_0_8 + r2))) as [E1 E2]; [lra|lra|].
  repeat split; [apply L; lra | apply U; lra | lra | lra].
Qed.

Lemma opacity_in_bounds (w r : Q) :
  (0 < r)%Q -> (Qabs w <= r)%Q ->
  exists v : Q,
    opacity (Fin w) (Fin r) = Fin v
    /\ (0.8 <= v)%Q /\ (v <= 1)%Q
    /\ (0.8 + 0.2 * (Qabs w / r) - (1 # 1000000000000000) <= v)%Q
    /\ (v <= 0.8 + 0.2 * (Qabs w / r) + (1 # 1000000000000000))%Q.
Proof.
  intros Hr Hw. destruct (ratio_in_unit w r Hr Hw) as [H0 H1].
  rewrite (opacity_value w r Hr). eexists. split; [reflexivity|].
  assert (Ex : Qred (Qabs w) / r == Qabs w / r) by now rewrite Qred_correct.
  destruct (Qeq_le2 _ _ Ex) as [Ex1 Ex2].
  destruct (opacity_steps (Qred (Qabs w) / r)) as (S1 & S2 & S3);
    [lra | lra |].
  cbv zeta in S1, S2, S3.
  set (r1 := round64 (Qred (Qred (Qabs w) / r))) in *.
  set (r2 := round64 (Qred (float_1_minus_0_8 * r1))) in *.
  set (v := round64 (Qred (float_0_8 + r2))) in *.
  destruct S1 as (A1 & A2 & A3 & A4). destruct S2 as (B1 & B2 & B3 & B4).
  destruct S3 as (C1 & C2 & C3 & C4).
  change (pow2 (-53)) with (1 # 9007199254740992) in *.
  unfold float_0_8, float_1_minus_0_8 in *.
  repeat split; lra.
Qed.

(** C8. For a positive range and a weight of at most that magnitude,
    [_weight_opacity] returns, with two decimals, the float64 value of
    [0.8 + (1 - 0.8) * (|weight| / weight_range)].  This value lies within
    [0.8, 1.0] and is within 1e-15 of [0.8 + 0.2 * (|weight| /
    weight_range)]; the string is that of an integer number of hundredths
    between 80 and 100, the value rounded. *)
Theorem weight_opacity_bounds (w r : Q) :
  (0 < r)%Q -> (Qabs w <= r)%Q ->
  exists v : Q,
    opacity (Fin w) (Fin r) = Fin v
    /\ _weight_opacity (Fin w) (Fin r) = format_f 2 (Fin v)
    /\ (0.8 <= v)%Q /\ (v <= 1)%Q
    /\ (0.8 + 0.2 * (Qabs w / r) - (1 # 1000000000000000) <= v)%Q
    /\ (v <= 0.8 + 0.2 * (Qabs w / r) + (1 # 1000000000000000))%Q
    /\ exists n : Z,
         n = round_half_even (v * 100)
         /\ (80 <= n <= 100)%Z
         /\ _weight_opacity (Fin w) (Fin r)
            = str_of_Z (n / 100) +:+ "." +:+ zfill 2 (str_of_Z (n mod 100)).
Proof.
  intros Hr Hw.
  destruct (opacity_in_bounds w r Hr Hw) as (v & Hv & Hlo & Hhi & Ha & Hb).
  exists v. split; [exact Hv|].
  split; [unfold _weight_opacity; now rewrite Hv|].
  split; [exact Hlo|]. split; [exact Hhi|]. split; [exact Ha|].
  split; [exact Hb|].
  assert (En : round_half_even (Qabs v * inject_Z 100)
               = round_half_even (v * 100)).
  { apply round_half_even_comp. rewrite Qabs_pos by lra. reflexivity. }
  exists (round_half_even (Qabs v * inject_Z 100)). split; [exact En|]. split.
  - rewrite En. apply round_half_even_between.
    + change (inject_Z 80) with (80 # 1). lra.
    + change (inject_Z 100) with (100 # 1). lra.
  - unfold _weight_opacity. rewrite Hv. unfold format_f.
    rewrite Qneg_nonneg by lra. reflexivity.
Qed.

Lemma weight_opacity_bounds_witness :
  exists v : Q,
    opacity (Fin (-1 # 2)) (Fin 2) = Fin v
    /\ _weight_opacity (Fin (-1 # 2)) (Fin 2) = format_f 2 (Fin v)
    /\ (0.8 <= v)%Q /\ (v <= 1)%Q
    /\ (0.8 + 0.2 * (Qabs (-1 # 2) / 2) - (1 # 1000000000000000) <= v)%Q
    /\ (v <= 0.8 + 0.2 * (Qabs (-1 # 2) / 2) + (1 # 1000000000000000))%Q
    /\ exists n : Z,
         n = round_half_even (v * 100)
         /\ (80 <= n <= 100)%Z
         /\ _weight_opacity (Fin (-1 # 2)) (Fin 2)
            = str_of_Z (n / 100) +:+ "." +:+ zfill 2 (str_of_Z (n mod 100)).
Proof.
  apply (weight_opacity_bounds (-1 # 2) 2); [reflexivity | discriminate].
Defined.

(** C8, the claim as stated fails: for the weight 11 and the range 40 the
    source computes the float 0.85499999999999998..., which is not
    [0.8 + 0.2 * (11 / 40)] = 0.855, and returns "0.85"; the value 0.855
    has the two decimals "0.86", and so has the float that the formula with
    the constant 0.2 gives. *)
Lemma weight_opacity_not_exact :
  (0 < 40)%Q /\ (Qabs 11 <= 40)%Q
  /\ opacity (Fin 11) (Fin 40) = Fin (1925288840700887 # 2251799813685248)
  /\ ~ (1925288840700887 # 2251799813685248 == 0.8 + 0.2 * (Qabs 11 / 40))
  /\ _weight_opacity (Fin 11) (Fin 40) = "0.85"
  /\ format_f 2 (Fin (0.8 + 0.2 * (Qabs 11 / 40))) = "0.86"
  /\ format_f 2 (opacity_as_stated (Fin 11) (Fin 40)) = "0.86".
Proof.
  split; [reflexivity|]. split; [discriminate|].
  split; [vm_compute; reflexivity|]. split; [discriminate|].
  split; [vm_compute; reflexivity|].
  split; vm_compute; reflexivity.
Qed.

(** The float of a weight of 0.25 in a range of 2 is just above 0.825. *)
Example weight_opacity_eighth :
  opacity (Fin 0.25) (Fin 2) = Fin (7430939385161319 # 9007199254740992)
  /\ _weight_opacity (Fin 0.25) (Fin 2) = "0.83".
Proof. split; vm_compute; reflexivity. Qed.

Example weight_opacity_quarter : _weight_opacity (Fin (-1 # 2)) (Fin 2) = "0.85".
Proof. vm_compute. reflexivity. Qed.

Example weight_opacity_seven_eighths :
  _weight_opacity (Fin 0.875) (Fin 1) = "0.97".
Proof. vm_compute. reflexivity. Qed.

(** ** Escaping *)

Lemma append_assoc (a b c : string) : (a +:+ b) +:+ c = a +:+ (b +:+ c).
Proof. induction a as [|x a IH]; [reflexivity|]. cbn. now rewrite IH. Qed.

Lemma append_nil_r (a : string) : a +:+ EmptyString = a.
Proof. induction a as [|x a IH]; [reflexivity|]. cbn. now rewrite IH. Qed.

Lemma str_replace_app (old : ascii) (new a b : string) :
  str_replace old new (a +:+ b) = str_replace old new a +:+ str_replace old new b.
Proof.
  induction a as [|c a IH]; [reflexivity|].
  cbn. rewrite IH.
  destruct (Ascii.eqb c old).
  - now rewrite append_assoc.
  - reflexivity.
Qed.

Lemma html_escape_app (a b : string) :
  html_escape (a +:+ b) = html_escape a +:+ html_escape b.
Proof.
  unfold html_escape, cgi_escape. now rewrite !str_replace_app.
Qed.

Lemma html_escape_char (c : ascii) :
  html_escape (String c EmptyString) = escape_char c.
Proof.
  destruct c as [[] [] [] [] [] [] [] []]; reflexivity.
Qed.

Lemma html_escape_cons (c : ascii) (s : string) :
  html_escape (String c s) = escape_char c +:+ html_escape s.
Proof.
  change (String c s) with (String c EmptyString +:+ s).
  now rewrite html_escape_app, html_escape_char.
Qed.

Lemma prefix_nil (s : string) : String.prefix EmptyString s = true.
Proof. now destruct s. Qed.

Lemma html_escape_escaped (text : string) : escaped (html_escape text) = true.
Proof.
  induction text as [|c text IH]; [reflexivity|].
  rewrite html_escape_cons.
  destruct c as [[] [] [] [] [] [] [] []];
    cbn -[html_escape]; rewrite ?prefix_nil, ?IH; reflexivity.
Qed.

(** [cgi.escape] leaves the apostrophe as it is. *)
Example html_escape_apostrophe : html_escape "it's" = "it's".
Proof. reflexivity. Qed.

Example html_escape_markup :
  html_escape "<a&b>" = "&lt;a&amp;b&gt;"
  /\ html_escape dquote = "&quot;".
Proof. split; reflexivity. Qed.

Lemma runs_html_escape (s : string) :
  runs (html_escape s) = map escape_run (runs s).
Proof.
  induction s as [|c s IH]; [reflexivity|].
  rewrite html_escape_cons.
  destruct c as [[] [] [] [] [] [] [] []];
    cbn -[html_escape]; rewrite ?IH;
    destruct (runs s) as [|[n|t] tl]; cbn -[html_escape];
    rewrite ?html_escape_cons; reflexivity.
Qed.

(** ** max and min under a key *)

Section FirstBest.

Context {A K : Type} (better : K -> K -> bool) (key : A -> K).
Hypothesis better_irrefl : forall a, better a a = false.
Hypothesis better_trans :
  forall a b c, better a b = true -> better b c = true -> better a c = true.
Hypothesis better_negtrans :
  forall a b c, better a b = false -> better b c = false -> better a c = false.

Lemma foldl_first_best (rest p : list A) (i : nat) (best : A) :
  first_best better key p i best ->
  exists i',
    first_best better key (p ++ rest) i'
      (foldl (fun best y => if better (key y) (key best) then y else best)
             best rest).
Proof.
  revert p i best.
  induction rest as [|y rest IH]; intros p i best (Hi & Hmax & Hfirst).
  - exists i. rewrite app_nil_r. now repeat split.
  - cbn [foldl]. replace (p ++ y :: rest) with ((p ++ [y]) ++ rest)
      by now rewrite <- app_assoc.
    destruct (better (key y) (key best)) eqn:E.
    + apply (IH (p ++ [y]) (length p) y). repeat split.
      * now rewrite lookup_app_r, Nat.sub_diag by lia.
      * intros j z Hj. destruct (lookup_app_Some p [y] j z) as [Hl _].
        destruct (Hl Hj) as [Hp|[_ Hy]].
        -- destruct (better (key z) (key y)) eqn:Ez; [|reflexivity].
           rewrite <- (Hmax j z Hp). symmetry. now apply (better_trans _ (key y)).
        -- destruct (j - length p)%nat; [|discriminate].
           injection Hy as <-. apply better_irrefl.
      * intros j z Hlt Hj. rewrite lookup_app_l in Hj by exact Hlt.
        destruct (better (key y) (key z)) eqn:Ez; [reflexivity|].
        rewrite <- E. symmetry.
        apply (better_negtrans _ (key z)); [exact Ez|]. now apply (Hmax j).
    + apply (IH (p ++ [y]) i best). repeat split.
      * rewrite lookup_app_l; [exact Hi|]. now apply lookup_lt_Some in Hi.
      * intros j z Hj. destruct (lookup_app_Some p [y] j z) as [Hl _].
        destruct (Hl Hj) as [Hp|[_ Hy]].
        -- now apply (Hmax j).
        -- destruct (j - length p)%nat; [|discriminate].
           now injection Hy as <-.
      * intros j z Hlt Hj. apply (Hfirst j z Hlt).
        rewrite lookup_app_l in Hj; [exact Hj|].
        apply lookup_lt_Some in Hi. lia.
Qed.

Lemma py_max_by_first_best (l : list A) :
  l <> [] ->
  exists i m, py_max_by better key l = Ok m /\ first_best better key l i m.
Proof.
  destruct l as [|x rest]; [congruence|]. intros _.
  destruct (foldl_first_best rest [x] 0 x) as [i Hi].
  - repeat split.
    + intros [|j] y Hj; [|discriminate]. injection Hj as <-. apply better_irrefl.
    + intros j y Hj. lia.
  - exists i. eexists. split; [reflexivity|exact Hi].
Qed.

End FirstBest.

Lemma Qgtb_irrefl (a : Q) : Qgtb a a = false.
Proof.
  destruct (Qgtb a a) eqn:E; [|reflexivity].
  apply Qgtb_lt in E. exfalso. apply (Qlt_irrefl a E).
Qed.

Lemma Qgtb_false (a b : Q) : Qgtb a b = false <-> (a <= b)%Q.
Proof.
  unfold Qgtb. rewrite Bool.negb_false_iff. apply Qle_bool_iff.
Qed.

Lemma Qgtb_trans (a b c : Q) :
  Qgtb a b = true -> Qgtb b c = true -> Qgtb a c = true.
Proof. rewrite !Qgtb_lt. intros H1 H2. now apply (Qlt_trans _ b). Qed.

Lemma Qgtb_negtrans (a b c : Q) :
  Qgtb a b = false -> Qgtb b c = false -> Qgtb a c = false.
Proof. rewrite !Qgtb_false. intros H1 H2. now apply (Qle_trans _ b). Qed.

(** ** Accumulation of the character weights *)

Lemma length_slice_add (a : list num) (start stop : Z) (w : num) :
  length (slice_add a start stop w) = length a.
Proof. unfold slice_add. apply length_imap. Qed.

Lemma length_range_fold (pd : bool) (count : nat) (spans : list (Z * Z))
    (st : num * list num) :
  length (snd (foldl (range_step pd count) st spans)) = length (snd st).
Proof.
  revert st. induction spans as [|[start stop] spans IH]; intros [w a].
  - reflexivity.
  - cbn [foldl]. rewrite IH. cbn. apply length_slice_add.
Qed.

Lemma length_span_step (pd : bool) (counts : gmap string nat)
    (a : list num) (ws : WeightedSpan) :
  length (span_step pd counts a ws) = length a.
Proof.
  destruct ws as [[feature spans] weight]. unfold span_step.
  now rewrite length_range_fold.
Qed.

Lemma length_char_weights (n : nat) (spans : list WeightedSpan) (pd : bool) :
  length (char_weights n spans pd) = n.
Proof.
  unfold char_weights.
  generalize (Counter (map (fun ws => fst (fst ws)) spans)). intros counts.
  rewrite <- (length_replicate n (Fin 0)) at 2.
  generalize (replicate n (Fin 0)). 
  induction spans as [|ws spans IH]; intros a; [reflexivity|].
  cbn [foldl]. rewrite IH. apply length_span_step.
Qed.

(** On a span with at most one range the loop variable is used once, and
    the code adds what the specification says. *)
Lemma span_step_single_range (pd : bool) (counts : gmap string nat)
    (a : list num) (feature : string) (spans : list (Z * Z)) (weight : Q) :
  (length spans <= 1)%nat ->
  span_step pd counts a (feature, spans, weight)
  = foldl (fun a r =>
             slice_add a (fst r) (snd r)
               (range_contribution pd (counter_get counts feature) weight r))
          a spans.
Proof.
  destruct spans as [|[start stop] [|r spans]]; cbn; intros H;
    [reflexivity | reflexivity | lia].
Qed.

Lemma char_weights_single_range (n : nat) (spans : list WeightedSpan)
    (pd : bool) :
  Forall (fun ws : WeightedSpan => (length (snd (fst ws)) <= 1)%nat) spans ->
  char_weights n spans pd = accumulate_spec n spans pd.
Proof.
  unfold char_weights, accumulate_spec.
  generalize (Counter (map (fun ws => fst (fst ws)) spans)). intros counts.
  generalize (replicate n (Fin 0)).
  induction spans as [|[[feature rs] weight] spans IH]; intros a Hall;
    [reflexivity|].
  inversion Hall as [|? ? H1 H2]; subst. cbn [foldl].
  rewrite span_step_single_range by exact H1. now apply IH.
Qed.

(** C1. The two scenarios of the claim hold: one range (0,1) of weight 2
    gives [2, 0], and two spans of one feature, each of weight 1, give
    [0.5, 0.5].  But the weight of a range is not computed from a fresh
    [span.weight]: the loop variable [weight] is divided in place, so a
    later range of the same span starts from the weight left by the ranges
    before it.  On "abcd" with the one span [(0,2), (2,4)] of weight 4 and
    density preserved, the code adds 2 to the first range and 1 to the
    second, where the accumulation from a fresh weight adds 2 to both; and
    the result depends on the order of the ranges. *)
Theorem char_weights_running_weight :
  char_weights 2 [("f", [(0, 1)], 2%Q)] false = [Fin 2; Fin 0]
  /\ char_weights 2 [("f", [(0, 1)], 1%Q); ("f", [(1, 2)], 1%Q)] false
     = [Fin (1 # 2); Fin (1 # 2)]
  /\ char_weights 4 [("f", [(0, 2); (2, 4)], 4%Q)] true
     = [Fin 2; Fin 2; Fin 1; Fin 1]
  /\ accumulate_spec 4 [("f", [(0, 2); (2, 4)], 4%Q)] true
     = [Fin 2; Fin 2; Fin 2; Fin 2]
  /\ char_weights 3 [("f", [(0, 1); (1, 3)], 2%Q)] true
     = [Fin 2; Fin 1; Fin 1]
  /\ char_weights 3 [("f", [(1, 3); (0, 1)], 2%Q)] true
     = [Fin 1; Fin 1; Fin 1].
Proof. repeat split; vm_compute; reflexivity. Qed.

(** The count of a feature divides the running weight once per range. *)
Example char_weights_count_twice :
  char_weights 2 [("f", [(0, 1); (1, 2)], 4%Q); ("f", [], 1%Q)] false
  = [Fin 2; Fin 1].
Proof. vm_compute. reflexivity. Qed.

Lemma Qltb_irrefl (a : Q) : Qltb a a = false.
Proof. apply Qgtb_irrefl. Qed.

Lemma Qltb_trans (a b c : Q) :
  Qltb a b = true -> Qltb b c = true -> Qltb a c = true.
Proof. intros H1 H2. apply (Qgtb_trans c b a); assumption. Qed.

Lemma Qltb_negtrans (a b c : Q) :
  Qltb a b = false -> Qltb b c = false -> Qltb a c = false.
Proof. intros H1 H2. apply (Qgtb_negtrans c b a); assumption. Qed.

Lemma py_min_by_abs_smallest (l : list Q) :
  l <> [] ->
  exists c, py_min_by Qltb Qabs l = Ok c /\ In c l
            /\ forall c', In c' l -> (Qabs c <= Qabs c')%Q.
Proof.
  intros Hne.
  destruct (py_max_by_first_best Qltb Qabs Qltb_irrefl Qltb_trans
              Qltb_negtrans l Hne) as (i & c & Hmin & Hi & Hle & _).
  exists c. split; [exact Hmin|]. split.
  - apply list_elem_of_In, list_elem_of_lookup. now exists i.
  - intros c' Hc'. apply list_elem_of_In, list_elem_of_lookup in Hc'.
    destruct Hc' as [j Hj]. apply (Qgtb_false (Qabs c) (Qabs c')).
    exact (Hle j c' Hj).
Qed.

Lemma signs_pos : signs !! "pos" = Some 1%Z.
Proof. vm_compute. reflexivity. Qed.

Lemma signs_neg : signs !! "neg" = Some (-1)%Z.
Proof. vm_compute. reflexivity. Qed.

Lemma Qzero_true (q : Q) : Qzero q = true <-> q == 0.
Proof. unfold Qzero. apply Qeq_bool_iff. Qed.

Lemma Qzero_false (q : Q) : Qzero q = false <-> ~ q == 0.
Proof.
  rewrite <- Qzero_true. destruct (Qzero q); split; congruence.
Qed.

Lemma length_chars (s : string) : length (chars s) = String.length s.
Proof. induction s as [|c s IH]; [reflexivity|]. cbn. now rewrite IH. Qed.

Lemma lookup_map_zip {A B C : Type} (f : A * B -> C) (xs : list A)
    (ys : list B) (i : nat) (x : A) :
  length xs = length ys -> xs !! i = Some x ->
  exists y, ys !! i = Some y /\ map f (zip xs ys) !! i = Some (f (x, y)).
Proof.
  revert ys i. induction xs as [|x' xs IH]; intros [|y ys] i Hlen Hi;
    try discriminate.
  destruct i as [|i].
  - injection Hi as <-. now exists y.
  - cbn in Hi, Hlen. injection Hlen as Hlen. apply (IH ys i Hlen Hi).
Qed.


Section ColourProperties.

Variable pow07 : num -> num.

(** C9. For a nonzero weight and a positive range, the colours of [w] and
    of [-w] have the hues 120 and 0, 120 for the positive one, and the same
    saturation and lightness; the two CSS colours differ in the hue only. *)
Theorem weight_color_sign_symmetry (w r min_lightness : Q) :
  ~ w == 0 -> (0 < r)%Q ->
  let c := weight_hsl pow07 (Fin w) (Fin r) min_lightness in
  let c' := weight_hsl pow07 (Fin (- w)) (Fin r) min_lightness in
  saturation c = saturation c'
  /\ lightness c = lightness c'
  /\ (((0 < w)%Q /\ hue c = 120%Z /\ hue c' = 0%Z)
      \/ ((w < 0)%Q /\ hue c = 0%Z /\ hue c' = 120%Z))
  /\ exists tail,
       _weight_color pow07 (Fin w) (Fin r) min_lightness
       = "hsl(" +:+ str_of_Z (hue c) +:+ tail
       /\ _weight_color pow07 (Fin (- w)) (Fin r) min_lightness
          = "hsl(" +:+ str_of_Z (hue c') +:+ tail.
Proof.
  intros Hw Hr c c'.
  assert (Habs : num_abs (Fin (- w)) = num_abs (Fin w)).
  { cbn. f_equal. apply Qred_complete, Qabs_opp. }
  assert (Hl : lightness c = lightness c').
  { subst c c'. unfold weight_hsl. cbn [lightness]. now rewrite Habs. }
  split; [reflexivity|]. split; [exact Hl|]. split.
  - subst c c'. unfold weight_hsl, _hue, num_gtb. cbn [hue].
    destruct (Qlt_le_dec 0 w) as [Hpos|Hle].
    + left. split; [exact Hpos|].
      assert (H1 : Qle_bool w 0 = false).
      { destruct (Qle_bool w 0) eqn:E; [|reflexivity].
        apply Qle_bool_iff in E. lra. }
      assert (H2 : Qle_bool (- w) 0 = true) by (apply Qle_bool_iff; lra).
      now rewrite H1, H2.
    + right. assert (Hneg : (w < 0)%Q).
      { apply Qle_lt_or_eq in Hle. destruct Hle as [Hlt|Heq]; [exact Hlt|].
        contradiction. }
      split; [exact Hneg|].
      assert (H1 : Qle_bool w 0 = true) by (apply Qle_bool_iff; lra).
      assert (H2 : Qle_bool (- w) 0 = false).
      { destruct (Qle_bool (- w) 0) eqn:E; [|reflexivity].
        apply Qle_bool_iff in E. lra. }
      now rewrite H1, H2.
  - exists (", " +:+ format_pct 2 (num_of_Z (saturation c)) +:+ ", "
              +:+ format_pct 2 (lightness c) +:+ ")").
    split; [reflexivity|].
    unfold _weight_color, css_hsl. fold c'. rewrite <- Hl. reflexivity.
Qed.

(** C6. With the sign +1 for 'pos' and -1 for 'neg': an empty list and a
    zero range are coloured with the weight [sign] and the range 1; an empty
    list and a nonzero range with the weight [sign * weight_range]; a
    non-empty list with a weight of smallest magnitude among its entries.
    [_remaining_weight_color([], 0, 'pos')] is the colour of the weight +1
    on the range 1, of hue 120 and full saturation. *)
Theorem remaining_weight_color_policy (ws : list (feature_label * Q))
    (weight_range : Q) (pos_neg : string) (sign : Z) :
  (pos_neg = "pos" /\ sign = 1%Z) \/ (pos_neg = "neg" /\ sign = (-1)%Z) ->
  (ws = [] -> weight_range == 0 ->
   _remaining_weight_color pow07 ws weight_range pos_neg
   = Ok (_weight_color pow07 (Fin (inject_Z sign)) (Fin 1) 0.8))
  /\ (ws = [] -> ~ weight_range == 0 ->
      exists v, v == inject_Z sign * weight_range
        /\ _remaining_weight_color pow07 ws weight_range pos_neg
           = Ok (_weight_color pow07 (Fin v) (Fin weight_range) 0.8))
  /\ (ws <> [] ->
      exists c, In c (map snd ws)
        /\ (forall c', In c' (map snd ws) -> (Qabs c <= Qabs c')%Q)
        /\ _remaining_weight_color pow07 ws weight_range pos_neg
           = Ok (_weight_color pow07 (Fin c) (Fin weight_range) 0.8))
  /\ _remaining_weight_color pow07 [] 0 "pos"
     = Ok (_weight_color pow07 (Fin 1) (Fin 1) 0.8)
  /\ hue (weight_hsl pow07 (Fin 1) (Fin 1) 0.8) = 120%Z
  /\ saturation (weight_hsl pow07 (Fin 1) (Fin 1) 0.8) = 1%Z.
Proof.
  intros Hsign.
  assert (Hs : signs !! pos_neg = Some sign).
  { destruct Hsign as [[-> ->]|[-> ->]]; [apply signs_pos|apply signs_neg]. }
  unfold _remaining_weight_color. rewrite Hs. cbn [mbind result_bind].
  repeat split.
  - intros -> Hz. apply Qzero_true in Hz. cbn [is_empty andb]. now rewrite Hz.
  - intros -> Hz. apply Qzero_false in Hz. cbn [is_empty andb]. rewrite Hz.
    eexists. split; [|reflexivity]. apply Qred_correct.
  - intros Hne.
    destruct (py_min_by_abs_smallest (map snd ws)) as (c & Hc & Hin & Hmin).
    { destruct ws; [congruence|discriminate]. }
    exists c. split; [exact Hin|]. split; [exact Hmin|].
    destruct ws as [|x ws]; [congruence|]. cbn [is_empty andb].
    now rewrite Hc.
Qed.

End ColourProperties.

Lemma weight_color_sign_symmetry_witness :
  let c := weight_hsl pow_stand_in (Fin (1 # 2)) (Fin 2) 0.6 in
  let c' := weight_hsl pow_stand_in (Fin (- (1 # 2))) (Fin 2) 0.6 in
  saturation c = saturation c'
  /\ lightness c = lightness c'
  /\ (((0 < 1 # 2)%Q /\ hue c = 120%Z /\ hue c' = 0%Z)
      \/ ((1 # 2 < 0)%Q /\ hue c = 0%Z /\ hue c' = 120%Z))
  /\ exists tail,
       _weight_color pow_stand_in (Fin (1 # 2)) (Fin 2) 0.6
       = "hsl(" +:+ str_of_Z (hue c) +:+ tail
       /\ _weight_color pow_stand_in (Fin (- (1 # 2))) (Fin 2) 0.6
          = "hsl(" +:+ str_of_Z (hue c') +:+ tail.
Proof.
  apply (weight_color_sign_symmetry pow_stand_in (1 # 2) 2 0.6);
    [discriminate | reflexivity].
Defined.

Lemma prefix_iff (p s : string) :
  String.prefix p s = true <-> exists rest, s = p +:+ rest.
Proof.
  revert s. induction p as [|c p IH]; intros s.
  - rewrite prefix_nil. split; [|reflexivity]. intros _. now exists s.
  - destruct s as [|d s].
    + split; [discriminate|]. intros [rest H]. discriminate.
    + cbn. destruct (ascii_dec c d) as [->|Hne].
      * rewrite IH. split; intros [rest H]; exists rest.
        -- now rewrite H.
        -- now injection H.
      * split; [discriminate|]. intros [rest H]. injection H as H1 H2. congruence.
Qed.

Lemma py_max_by_nonempty {A K : Type} (gt : K -> K -> bool) (key : A -> K)
    (l : list A) :
  l <> [] -> exists m, py_max_by gt key l = Ok m.
Proof. destruct l; [congruence|]. intros _. eexists. reflexivity. Qed.

Section RenderProperties.

Variable pow07 : num -> num.

(** C5. With [preserve_density] left to [None], the character weights
    that [render_weighted_spans] renders are accumulated with the flag that
    tells whether the analyzer starts with "char", and the document is
    rendered as with that flag given: the density is preserved for "char"
    and "char_wb", and not for "word". *)
Theorem preserve_density_default (data : WeightedSpans) :
  let pd := String.prefix "char" (analyzer data) in
  let cw :=
    char_weights (String.length (document data)) (weighted_spans data) pd in
  render_weighted_spans pow07 data None
  = (weight_range ← py_max_by num_gtb id (map num_abs cw);
     Ok (String.concat EmptyString
           (map (fun tw => _colorize pow07 (fst tw) (snd tw) weight_range)
                (zip (chars (document data)) cw))))
  /\ render_weighted_spans pow07 data None
     = render_weighted_spans pow07 data (Some pd)
  /\ (pd = true <-> exists rest, analyzer data = "char" +:+ rest)
  /\ String.prefix "char" "char" = true
  /\ String.prefix "char" "char_wb" = true
  /\ String.prefix "char" "word" = false.
Proof.
  cbv zeta. split; [reflexivity|]. split; [reflexivity|].
  split; [apply prefix_iff|]. now repeat split.
Qed.


(** C3. An empty document leaves [char_weights] empty, and [max] over it
    raises [ValueError], whatever the spans.  A non-empty document without
    spans has the weight range 0, which [_weight_opacity] divides by: the
    opacity of every character is [nan]. *)
Theorem render_weighted_spans_empty_or_zero :
  (forall (a : string) (spans : list WeightedSpan) (pd : option bool),
     render_weighted_spans pow07
       {| analyzer := a; document := EmptyString; weighted_spans := spans |} pd
     = Raise ValueError)
  /\ (forall (a : string) (pd : option bool),
        render_weighted_spans pow07
          {| analyzer := a; document := "a"; weighted_spans := [] |} pd
        = Ok ("<span " +:+ attr "style" "opacity: nan" +:+ ">a</span>"))
  /\ opacity (Fin 0) (Fin 0) = NaN
  /\ _weight_opacity (Fin 0) (Fin 0) = "nan".
Proof.
  split.
  { intros a spans pd. unfold render_weighted_spans. cbn [document weighted_spans].
    generalize (length_char_weights 0 spans
                  match pd with
                  | Some b => b
                  | None => String.prefix "char"
                              (analyzer {| analyzer := a; document := EmptyString;
                                           weighted_spans := spans |})
                  end).
    cbn [String.length].
    destruct (char_weights 0 spans _); [reflexivity|discriminate]. }
  split; [|split; reflexivity].
  intros a pd. unfold render_weighted_spans. cbn [document weighted_spans].
  destruct pd as [[]|]; try destruct (String.prefix _ _); vm_compute; reflexivity.
Qed.

End RenderProperties.

(** ** Feature labels *)

Lemma html_escape_escape_chars (text : string) :
  html_escape text = escape_chars text.
Proof.
  induction text as [|c text IH]; [reflexivity|].
  rewrite html_escape_cons. cbn [escape_chars]. now rewrite IH.
Qed.

Lemma html_escape_sign_prefix (sign : Z) (name : string) :
  html_escape (sign_prefix sign +:+ name) = sign_prefix sign +:+ html_escape name.
Proof.
  rewrite html_escape_app. unfold sign_prefix.
  destruct (sign <? 0)%Z; reflexivity.
Qed.

Lemma format_signed_candidate (d : gmap string pyval) (ns : string * Z)
    (formatter : option (string -> string)) :
  is_candidate d ns ->
  format_signed d formatter
  = Ok (sign_prefix (snd ns)
          +:+ match formatter with
              | Some fmt => fmt (fst ns)
              | None => fst ns
              end).
Proof.
  intros [Hn Hs]. unfold format_signed, get_int, get_str.
  now rewrite Hs, Hn.
Qed.

Lemma mapM_cons {A B : Type} (f : A -> result B) (x : A) (l : list A) :
  mapM f (x :: l) = y ← f x; k ← mapM f l; mret (y :: k).
Proof. reflexivity. Qed.

Lemma mapM_format_signed (rest : list (gmap string pyval))
    (cands : list (string * Z)) :
  Forall2 is_candidate rest cands ->
  mapM (fun f => s ← format_signed f None; Ok (html_escape s)) rest
  = Ok (map (fun ns => sign_prefix (snd ns) +:+ html_escape (fst ns)) cands).
Proof.
  induction 1 as [|d ns rest cands Hd Hrest IH]; [reflexivity|].
  rewrite mapM_cons, (format_signed_candidate d ns None Hd), IH.
  cbn [mbind result_bind mret result_ret map].
  now rewrite html_escape_sign_prefix.
Qed.

Lemma format_unhashed_feature_candidates (feature : list (gmap string pyval))
    (cands : list (string * Z)) (weight : Q) (hl_spaces : bool) :
  Forall2 is_candidate feature cands ->
  _format_unhashed_feature feature weight hl_spaces
  = Ok match cands with
       | [] => EmptyString
       | (name, sign) :: rest =>
           sign_prefix sign
             +:+ _format_single_feature name weight hl_spaces
             +:+ more_candidates rest
       end.
Proof.
  intros [|d [name sign] feature' cands' Hd Hrest]; [reflexivity|].
  cbn [_format_unhashed_feature].
  rewrite (format_signed_candidate d (name, sign) _ Hd).
  cbn [mbind result_bind fst snd].
  destruct Hrest as [|d' ns' rest' cands'' Hd' Hrest'].
  - cbn [more_candidates]. now rewrite !append_nil_r.
  - rewrite (mapM_format_signed (d' :: rest') (ns' :: cands''))
      by now constructor.
    cbn [mbind result_bind more_candidates]. now rewrite !append_assoc.
Qed.

Section EscapingProperties.

Variable pow07 : num -> num.

(** C2. [html_escape] translates every character by [escape_char], the
    ampersand, the angle brackets and the double quote into their entities;
    its result has no literal [<], [>] or double quote, and every [&] in it
    starts an entity.  The token of [_colorize] enters the markup through
    [html_escape] only, between two strings that do not depend on it; a
    single feature is its escaped text, with every run of spaces of the
    text replaced by a marker when spaces are highlighted; the names of the
    candidates of an unhashed feature enter the markup through
    [_format_single_feature] (the first) and [html_escape] (the others). *)
Theorem markup_text_is_escaped :
  (forall text, html_escape text = escape_chars text)
  /\ (forall text, escaped (html_escape text) = true)
  /\ (forall (weight weight_range : num),
        exists before after,
          forall token,
            _colorize pow07 token weight weight_range
            = before +:+ html_escape token +:+ after)
  /\ (forall feature weight,
        _format_single_feature feature weight false = html_escape feature)
  /\ (forall feature weight,
        _format_single_feature feature weight true
        = replace_runs (replacer weight) true
            (map escape_run (runs feature)))
  /\ (forall feature cands weight hl_spaces,
        Forall2 is_candidate feature cands ->
        _format_unhashed_feature feature weight hl_spaces
        = Ok match cands with
             | [] => EmptyString
             | (name, sign) :: rest =>
                 sign_prefix sign
                   +:+ _format_single_feature name weight hl_spaces
                   +:+ more_candidates rest
             end).
Proof.
  split; [exact html_escape_escape_chars|].
  split; [exact html_escape_escaped|].
  split.
  { intros weight weight_range. unfold _colorize.
    destruct (isclose0 weight).
    - eexists ("<span " +:+ attr "style" _ +:+ ">"), "</span>".
      intros token. now rewrite !append_assoc.
    - eexists ("<span " +:+ attr "style" _ +:+ " " +:+ attr "title" _ +:+ ">"),
        "</span>".
      intros token. now rewrite !append_assoc. }
  split; [reflexivity|].
  split.
  { intros feature weight. unfold _format_single_feature, replace_spaces.
    cbn [negb]. now rewrite runs_html_escape. }
  exact format_unhashed_feature_candidates.
Qed.

End EscapingProperties.

Lemma markup_text_is_escaped_witness :
  _format_unhashed_feature [candidate "a<b" 1; candidate "c&d" (-1)] 1 false
  = Ok ("a&lt;b" +:+ more_candidates [("c&d", (-1)%Z)]).
Proof.
  destruct (markup_text_is_escaped pow_stand_in) as (_ & _ & _ & _ & _ & H).
  apply (H [candidate "a<b" 1; candidate "c&d" (-1)]
           [("a<b", 1%Z); ("c&d", (-1)%Z)] 1%Q false).
  repeat constructor.
Defined.

(** C10. The empty list passes the test on the shape of its items, so
    [_format_feature] hands it to [_format_unhashed_feature], which returns
    the empty string whatever the weight and the highlighting. *)
Theorem format_feature_empty_list (weight : Q) (hl_spaces : bool) :
  forallb (fun x => has_key "name" x && has_key "sign" x) [] = true
  /\ _format_feature (PyList []) weight hl_spaces
     = _format_unhashed_feature [] weight hl_spaces
  /\ _format_feature (PyList []) weight hl_spaces = Ok EmptyString.
Proof. repeat split. Qed.

(** ** Top target *)

Lemma forallb_not_None {A B : Type} (val : A -> option B) (l : list A) :
  forallb (fun t => not_None (val t)) l = true
  <-> Forall (fun t => val t <> None) l.
Proof.
  rewrite forallb_forall, Forall_forall. split; intros H t Ht.
  - apply list_elem_of_In, H in Ht. intros E. rewrite E in Ht. discriminate.
  - apply list_elem_of_In, H in Ht. now destruct (val t).
Qed.

Lemma py_max_by_first_max (val : TargetExplanation -> option Q)
    (targets : list TargetExplanation) :
  targets <> [] -> Forall (fun t => val t <> None) targets ->
  exists i t,
    py_max_by Qgtb (fun t => default 0%Q (val t)) targets = Ok t
    /\ first_max val targets i t.
Proof.
  intros Hne Hall.
  destruct (py_max_by_first_best Qgtb (fun t => default 0%Q (val t))
              Qgtb_irrefl Qgtb_trans Qgtb_negtrans targets Hne)
    as (i & t & Hmax & Hi & Hge & Hgt).
  exists i, t. split; [exact Hmax|]. split; [exact Hi|].
  assert (Hv : val t <> None).
  { rewrite Forall_forall in Hall. apply Hall.
    apply list_elem_of_lookup. now exists i. }
  destruct (val t) as [v|] eqn:Ev; [|congruence].
  exists v. split; [reflexivity|]. split.
  - intros j t' v' Hj Ht'. specialize (Hge j t' Hj).
    rewrite Ht' in Hge. now apply Qgtb_false.
  - intros j t' v' Hlt Hj Ht'. specialize (Hgt j t' Hlt Hj).
    rewrite Ht' in Hgt. now apply Qgtb_lt.
Qed.

Lemma not_Forall_nonempty {A : Type} (P : A -> Prop) (l : list A) :
  ~ Forall P l -> l <> [].
Proof. intros H ->. apply H. constructor. Qed.

(** C7. On a non-empty list whose targets all have a probability,
    [_get_top_target] returns the first target of greatest probability;
    otherwise, when all have a score, the first target of greatest score;
    otherwise it returns [None].  With the probabilities 0.3, 0.9, 0.9 it
    returns the second target.  On the empty list it raises [ValueError]. *)
Theorem get_top_target_first_max (targets : list TargetExplanation) :
  (targets <> [] ->
   Forall (fun t => proba t <> None) targets ->
   exists i t, _get_top_target targets = Ok (Some t)
               /\ first_max proba targets i t)
  /\ (~ Forall (fun t => proba t <> None) targets ->
      Forall (fun t => score t <> None) targets ->
      exists i t, _get_top_target targets = Ok (Some t)
                  /\ first_max score targets i t)
  /\ (~ Forall (fun t => proba t <> None) targets ->
      ~ Forall (fun t => score t <> None) targets ->
      _get_top_target targets = Ok None)
  /\ (forall t1 t2 t3 : TargetExplanation,
        proba t1 = Some 0.3%Q -> proba t2 = Some 0.9%Q ->
        proba t3 = Some 0.9%Q ->
        _get_top_target [t1; t2; t3] = Ok (Some t2))
  /\ (targets = [] -> _get_top_target targets = Raise ValueError).
Proof.
  unfold _get_top_target. repeat split.
  - intros Hne Hall.
    destruct (py_max_by_first_max proba targets Hne Hall) as (i & t & Hm & Hf).
    apply forallb_not_None in Hall. rewrite Hall, Hm. now exists i, t.
  - intros Hp Hs.
    destruct (py_max_by_first_max score targets (not_Forall_nonempty _ _ Hp) Hs)
      as (i & t & Hm & Hf).
    destruct (forallb _ targets) eqn:E.
    { apply forallb_not_None in E. contradiction. }
    apply forallb_not_None in Hs. rewrite Hs, Hm. now exists i, t.
  - intros Hp Hs.
    destruct (forallb (fun t => not_None (proba t)) targets) eqn:E.
    { apply forallb_not_None in E. contradiction. }
    destruct (forallb (fun t => not_None (score t)) targets) eqn:E'.
    { apply forallb_not_None in E'. contradiction. }
    reflexivity.
  - intros t1 t2 t3 H1 H2 H3. cbn. rewrite H1, H2, H3. cbn.
    change (Qgtb 0.9 0.3) with true. cbn iota. rewrite H2. reflexivity.
  - intros ->. reflexivity.
Qed.

Lemma get_top_target_first_max_witness :
  (exists i t, _get_top_target [target_a; target_b; target_c] = Ok (Some t)
               /\ first_max proba [target_a; target_b; target_c] i t)
  /\ _get_top_target [target_a; target_b; target_c] = Ok (Some target_b).
Proof.
  destruct (get_top_target_first_max [target_a; target_b; target_c])
    as (H1 & _ & _ & H4 & _).
  split.
  - apply H1; [discriminate|]. repeat constructor; discriminate.
  - apply H4; reflexivity.
Defined.

(** C7, the claim as stated fails on the empty list: every target of the
    empty list has a probability, and no target is returned, [max] raising
    [ValueError]. *)
Lemma get_top_target_empty_counterexample :
  Forall (fun t => proba t <> None) ([] : list TargetExplanation)
  /\ _get_top_target [] = Raise ValueError
  /\ forall t, _get_top_target [] <> Ok (Some t).
Proof. split; [constructor|]. split; [reflexivity|]. discriminate. Qed.

(** An empty list passes the test on the probabilities, and [max] raises. *)
Example get_top_target_empty : _get_top_target [] = Raise ValueError.
Proof. reflexivity. Qed.

(** ** The weight range of the tables *)

Lemma feature_weights_range_returns (w : FeatureWeights) :
  returns (feature_weights_range w).
Proof.
  unfold feature_weights_range, returns.
  apply py_max_by_nonempty. unfold or_zero.
  destruct (map _ _); discriminate.
Qed.

(** [_weight_range] guards the empty case with [or [0]]: it never raises,
    and the range of no weights is 0. *)
Lemma weight_range_returns (weights : weights_arg) :
  returns (_weight_range weights).
Proof.
  destruct weights as [ts|w]; [|apply feature_weights_range_returns].
  unfold _weight_range.
  assert (H : returns (mapM (fun t => feature_weights_range (feature_weights t)) ts)).
  { induction ts as [|t ts [rs IH]]; [now exists []|].
    destruct (feature_weights_range_returns (feature_weights t)) as [r Hr].
    exists (r :: rs). now rewrite mapM_cons, Hr, IH. }
  destruct H as [rs ->]. cbn [mbind result_bind].
  apply py_max_by_nonempty. destruct rs; discriminate.
Qed.

Example weight_range_no_weights :
  _weight_range (TargetList []) = Ok 0%Q
  /\ _weight_range (Weights {| pos := None; neg := Some [] |}) = Ok 0%Q.
Proof. split; reflexivity. Qed.

Lemma remaining_weight_color_policy_witness :
  _remaining_weight_color pow_stand_in [] 0 "pos"
  = Ok (_weight_color pow_stand_in (Fin (inject_Z 1)) (Fin 1) 0.8).
Proof.
  destruct (remaining_weight_color_policy pow_stand_in [] 0 "pos" 1
              (or_introl (conj eq_refl eq_refl))) as [H _].
  apply H; reflexivity.
Defined.

Example remaining_weight_color_smallest :
  _remaining_weight_color pow_stand_in
    [(Plain "a", (-3)%Q); (Plain "b", 2%Q); (Plain "c", (-2)%Q)] 5 "neg"
  = Ok (_weight_color pow_stand_in (Fin 2) (Fin 5) 0.8).
Proof. reflexivity. Qed.


(** The document "ab" with the one range (0,1) of weight 2: the first
    character is coloured, the second has the opacity alone. *)
Example render_sample_doc :
  render_weighted_spans pow_stand_in sample_doc (Some false)
  = Ok (("<span "
           +:+ attr "style"
                 "background-color: hsl(120, 100.00%, 60.00%); opacity: 1.00"
           +:+ " " +:+ attr "title" "2.000" +:+ ">a</span>")
        +:+ ("<span " +:+ attr "style" "opacity: 0.80" +:+ ">b</span>")).
Proof. vm_compute. reflexivity. Qed.

(** A weight of 1e-9 is not zero, and is rendered as a neutral token. *)
Example colorize_tolerance :
  isclose0 (Fin (1 # 1000000000)) = true
  /\ _colorize pow_stand_in "x" (Fin (1 # 1000000000)) (Fin 1)
     = "<span " +:+ attr "style" "opacity: 0.80" +:+ ">x</span>".
Proof. split; vm_compute; reflexivity. Qed.


(** * Further properties *)

(** ** The counter of features *)

Lemma counter_fold_get (keys : list string) (m : gmap string nat) (k : string) :
  counter_get
    (foldl (fun m k => <[k := S (default O (m !! k))]> m) m keys) k
  = (counter_get m k + count_occ String.string_dec keys k)%nat.
Proof.
  revert m. induction keys as [|x keys IH]; intros m; cbn [foldl count_occ].
  - lia.
  - rewrite IH. unfold counter_get. destruct (String.string_dec x k) as [->|Hne].
    + rewrite lookup_insert_eq. destruct (m !! k); cbn; lia.
    + now rewrite lookup_insert_ne by exact Hne.
Qed.

Lemma counter_get_Counter (keys : list string) (k : string) :
  counter_get (Counter keys) k = count_occ String.string_dec keys k.
Proof.
  unfold Counter. rewrite counter_fold_get. unfold counter_get.
  now rewrite lookup_empty.
Qed.

Lemma counter_get_span (spans : list WeightedSpan) (ws : WeightedSpan) :
  In ws spans ->
  (1 <= counter_get (Counter (map (fun ws => fst (fst ws)) spans))
          (fst (fst ws)))%nat.
Proof.
  intros Hin. rewrite counter_get_Counter.
  apply (count_occ_In String.string_dec), in_map_iff. now exists ws.
Qed.

(** X1. [feature_counts[f]] is the number of weighted spans whose feature
    is [f]: 0 for a feature of no span, and at least 1 for the feature of a
    span of the list. *)
Theorem Counter_counts_occurrences (keys : list string) (k : string) :
  counter_get (Counter keys) k = count_occ String.string_dec keys k
  /\ (In k keys <-> (1 <= counter_get (Counter keys) k)%nat)
  /\ (~ In k keys <-> counter_get (Counter keys) k = O).
Proof.
  rewrite counter_get_Counter. split; [reflexivity|]. split.
  - apply (count_occ_In String.string_dec).
  - apply (count_occ_not_In String.string_dec).
Qed.

(** ** Positions outside the ranges *)

Lemma lookup_slice_add (a : list num) (start stop : Z) (w : num) (i : nat) :
  slice_add a start stop w !! i
  = (fun x => if ((slice_bound (Z.of_nat (length a)) start <=? Z.of_nat i)
                  && (Z.of_nat i <? slice_bound (Z.of_nat (length a)) stop))%Z
              then num_add x w else x) <$> a !! i.
Proof. unfold slice_add. now rewrite list_lookup_imap. Qed.

Lemma lookup_slice_add_outside (a : list num) (r : Z * Z) (w : num) (i : nat) :
  ~ in_slice (length a) r i ->
  slice_add a (fst r) (snd r) w !! i = a !! i.
Proof.
  intros Hout. rewrite lookup_slice_add. destruct (a !! i) as [x|]; [|reflexivity].
  cbn. unfold in_slice in Hout.
  destruct (_ <=? _)%Z eqn:E1; [|reflexivity].
  destruct (_ <? _)%Z eqn:E2; [|reflexivity].
  exfalso. apply Hout. split; [now apply Z.leb_le|now apply Z.ltb_lt].
Qed.

Lemma lookup_range_fold_outside (pd : bool) (count : nat)
    (ranges : list (Z * Z)) (st : num * list num) (i : nat) :
  Forall (fun r => ~ in_slice (length (snd st)) r i) ranges ->
  snd (foldl (range_step pd count) st ranges) !! i = snd st !! i.
Proof.
  revert st. induction ranges as [|[start stop] ranges IH]; intros [w a] Hall;
    [reflexivity|].
  inversion Hall as [|? ? H1 H2]; subst. cbn [foldl]. rewrite IH.
  - cbn. apply (lookup_slice_add_outside a (start, stop)). exact H1.
  - cbn. rewrite length_slice_add. exact H2.
Qed.

(** X2. A character that no range covers keeps the weight 0, whatever the
    spans do elsewhere; the ranges are read as slices, clipped to the
    document. *)
Theorem char_weights_outside_ranges (n : nat) (spans : list WeightedSpan)
    (pd : bool) (i : nat) :
  (i < n)%nat ->
  Forall (fun ws => Forall (fun r => ~ in_slice n r i) (span_ranges ws)) spans ->
  char_weights n spans pd !! i = Some (Fin 0).
Proof.
  intros Hi Hall. unfold char_weights.
  generalize (Counter (map (fun ws => fst (fst ws)) spans)). intros counts.
  assert (Hz : replicate n (Fin 0) !! i = Some (Fin 0))
    by now apply lookup_replicate_2.
  assert (Hn : length (replicate n (Fin 0)) = n) by apply length_replicate.
  revert Hz Hn. generalize (replicate n (Fin 0)).
  induction Hall as [|[[feature ranges] weight] spans H1 H2 IH]; intros a Hz Hn;
    [exact Hz|].
  cbn [foldl]. apply IH.
  - unfold span_step. rewrite lookup_range_fold_outside; [exact Hz|].
    cbn [snd]. now rewrite Hn.
  - now rewrite length_span_step.
Qed.

Lemma char_weights_outside_ranges_witness :
  char_weights 3 [("f", [(0, 1); (5, 9)], 2%Q); ("g", [(-1, 3)], 1%Q)] true
    !! 1%nat = Some (Fin 0).
Proof.
  apply char_weights_outside_ranges; [lia|].
  repeat constructor; unfold in_slice; cbn; lia.
Defined.

(** X3. The array of character weights has one entry per character of the
    document, whatever the ranges: out of bounds, negative, empty or
    reversed ranges neither extend nor shorten it. *)
Theorem char_weights_one_per_character (data : WeightedSpans) (pd : bool) :
  length (char_weights (String.length (document data)) (weighted_spans data) pd)
  = length (chars (document data)).
Proof. now rewrite length_char_weights, length_chars. Qed.

(** With the density preserved, an empty range leaves an infinite weight
    to the ranges after it. *)
Example char_weights_empty_range :
  char_weights 2 [("f", [(1, 1); (0, 2)], 1%Q)] true = [Inf false; Inf false].
Proof. vm_compute. reflexivity. Qed.

(** ** The weight range of a document *)

Lemma py_max_by_Fin (l : list Q) :
  py_max_by num_gtb id (map Fin l)
  = match py_max_by Qgtb id l with
    | Ok m => Ok (Fin m)
    | Raise e => Raise e
    end.
Proof.
  destruct l as [|x l]; [reflexivity|]. cbn [py_max_by map]. f_equal.
  revert x. induction l as [|y l IH]; intros x; [reflexivity|].
  cbn [foldl map].
  change (num_gtb (id (Fin y)) (id (Fin x))) with (Qgtb (id y) (id x)).
  destruct (Qgtb (id y) (id x)); apply IH.
Qed.

Lemma all_fin_map (a : list num) : Forall is_fin a -> exists qs, a = map Fin qs.
Proof.
  induction 1 as [|x a [q ->] _ [qs ->]]; [now exists []|]. now exists (q :: qs).
Qed.

Lemma py_max_abs_fin (a : list num) :
  Forall is_fin a -> a <> [] ->
  exists r : Q,
    py_max_by num_gtb id (map num_abs a) = Ok (Fin r)
    /\ (0 <= r)%Q
    /\ forall q, In (Fin q) a -> (Qabs q <= r)%Q.
Proof.
  intros Ha Hne. destruct (all_fin_map a Ha) as [qs ->].
  assert (E : map num_abs (map Fin qs)
              = map Fin (map (fun q => Qred (Qabs q)) qs)).
  { rewrite !map_map. reflexivity. }
  rewrite E, py_max_by_Fin.
  destruct (py_max_by_first_best Qgtb id Qgtb_irrefl Qgtb_trans Qgtb_negtrans
              (map (fun q => Qred (Qabs q)) qs))
    as (i & m & Hm & Hi & Hmax & _).
  { destruct qs; [exfalso; now apply Hne|discriminate]. }
  rewrite Hm. exists m. split; [reflexivity|].
  assert (Hle : forall q, In q qs -> (Qabs q <= m)%Q).
  { intros q Hq. apply list_elem_of_In, list_elem_of_lookup in Hq.
    destruct Hq as [j Hj].
    assert (Hj' : map (fun q => Qred (Qabs q)) qs !! j = Some (Qred (Qabs q))).
    { change (map (fun q => Qred (Qabs q)) qs)
        with ((fun q => Qred (Qabs q)) <$> qs).
      now rewrite list_lookup_fmap, Hj. }
    specialize (Hmax j _ Hj'). apply Qgtb_false in Hmax. unfold id in Hmax.
    now rewrite Qred_correct in Hmax. }
  split.
  - destruct qs as [|q qs]; [exfalso; now apply Hne|].
    apply Qle_trans with (Qabs q); [apply Qabs_nonneg|].
    apply Hle. now left.
  - intros q Hq. apply Hle. apply in_map_iff in Hq.
    destruct Hq as (q' & E' & Hq'). now injection E' as ->.
Qed.

Section RangeProperties.

Variable pow07 : num -> num.

(** X5. When [render_weighted_spans] renders a non-empty document whose
    character weights are all finite, the weight range that it hands to
    [_colorize] is a finite number, not negative, and at least as large as
    the magnitude of every character weight; so, when it is not zero, the
    opacity of every character lies within [0.8, 1]. *)
Theorem render_opacity_within_bounds (data : WeightedSpans) (pd : bool) :
  let cw :=
    char_weights (String.length (document data)) (weighted_spans data) pd in
  document data <> EmptyString ->
  Forall is_fin cw ->
  exists (r : Q) (frags : list string),
    render_weighted_spans pow07 data (Some pd)
    = Ok (String.concat EmptyString frags)
    /\ (0 <= r)%Q
    /\ forall i c,
         chars (document data) !! i = Some c ->
         exists q,
           cw !! i = Some (Fin q)
           /\ frags !! i = Some (_colorize pow07 c (Fin q) (Fin r))
           /\ (Qabs q <= r)%Q
           /\ ((0 < r)%Q ->
               exists v, opacity (Fin q) (Fin r) = Fin v
                         /\ (0.8 <= v)%Q /\ (v <= 1)%Q).
Proof.
  intros cw Hdoc Hfin.
  assert (Hlen : length (chars (document data)) = length cw).
  { unfold cw. now rewrite length_char_weights, length_chars. }
  assert (Hne : cw <> []).
  { intros E. rewrite E, length_chars in Hlen.
    destruct (document data); [congruence|discriminate]. }
  destruct (py_max_abs_fin cw Hfin Hne) as (r & Hmax & H0 & Hle).
  unfold render_weighted_spans. fold cw. rewrite Hmax. cbn [mbind result_bind].
  exists r. eexists. split; [reflexivity|]. split; [exact H0|].
  intros i c Hc.
  destruct (lookup_map_zip
              (fun tw => _colorize pow07 (fst tw) (snd tw) (Fin r))
              (chars (document data)) cw i c Hlen Hc) as (w & Hw & Hf).
  destruct (Forall_lookup_1 _ _ _ _ Hfin Hw) as [q ->].
  assert (Hq : (Qabs q <= r)%Q).
  { apply Hle. apply list_elem_of_In, list_elem_of_lookup. now exists i. }
  exists q. split; [exact Hw|]. split; [exact Hf|]. split; [exact Hq|].
  intros Hpos.
  destruct (opacity_in_bounds q r Hpos Hq) as (v & Hv & Hlo & Hhi & _).
  now exists v.
Qed.

End RangeProperties.

Lemma render_opacity_within_bounds_witness :
  exists (r : Q) (frags : list string),
    render_weighted_spans pow_stand_in sample_doc (Some false)
    = Ok (String.concat EmptyString frags)
    /\ (0 <= r)%Q
    /\ forall i c,
         chars (document sample_doc) !! i = Some c ->
         exists q,
           char_weights (String.length (document sample_doc))
             (weighted_spans sample_doc) false !! i = Some (Fin q)
           /\ frags !! i = Some (_colorize pow_stand_in c (Fin q) (Fin r))
           /\ (Qabs q <= r)%Q
           /\ ((0 < r)%Q ->
               exists v, opacity (Fin q) (Fin r) = Fin v
                         /\ (0.8 <= v)%Q /\ (v <= 1)%Q).
Proof.
  apply (render_opacity_within_bounds pow_stand_in sample_doc false).
  - discriminate.
  - repeat constructor; eexists; reflexivity.
Defined.

(** ** More on escaping *)

Lemma escape_char_app_inj (c d : ascii) (a b : string) :
  escape_char c +:+ a = escape_char d +:+ b -> c = d /\ a = b.
Proof.
  unfold escape_char.
  destruct (Ascii.eqb_spec c amp) as [->|Hc1];
    [|destruct (Ascii.eqb_spec c lt_sign) as [->|Hc2];
      [|destruct (Ascii.eqb_spec c gt_sign) as [->|Hc3];
        [|destruct (Ascii.eqb_spec c dquote_char) as [->|Hc4]]]];
  (destruct (Ascii.eqb_spec d amp) as [->|Hd1];
    [|destruct (Ascii.eqb_spec d lt_sign) as [->|Hd2];
      [|destruct (Ascii.eqb_spec d gt_sign) as [->|Hd3];
        [|destruct (Ascii.eqb_spec d dquote_char) as [->|Hd4]]]]);
  cbn; intros H; try discriminate H;
  try (injection H; intros; subst; try congruence; now split).
Qed.

Lemma escape_char_nonempty (c : ascii) (s : string) :
  escape_char c +:+ s <> EmptyString.
Proof.
  unfold escape_char.
  repeat match goal with |- context [Ascii.eqb ?x ?y] =>
    destruct (Ascii.eqb x y) end; discriminate.
Qed.

(** X7. Escaping loses nothing: two texts with the same escaped form are
    the same text. *)
Theorem html_escape_injective (a b : string) :
  html_escape a = html_escape b -> a = b.
Proof.
  revert b. induction a as [|c a IH]; intros [|d b] H.
  - reflexivity.
  - rewrite html_escape_cons in H. symmetry in H.
    now apply escape_char_nonempty in H.
  - rewrite html_escape_cons in H. now apply escape_char_nonempty in H.
  - rewrite !html_escape_cons in H.
    apply escape_char_app_inj in H. destruct H as [-> H].
    f_equal. now apply IH.
Qed.

Lemma html_escape_injective_witness : "a&b" = "a&b".
Proof. apply (html_escape_injective "a&b" "a&b"). reflexivity. Defined.

(** X8. Escaping commutes with concatenation, so the characters that
    [render_weighted_spans] escapes one by one spell the escaped document. *)
Theorem html_escape_per_character (a b : string) :
  html_escape (a +:+ b) = html_escape a +:+ html_escape b
  /\ String.concat EmptyString (map html_escape (chars a)) = html_escape a.
Proof.
  split; [apply html_escape_app|].
  induction a as [|c a IH]; [reflexivity|].
  rewrite html_escape_cons. cbn [chars map].
  rewrite html_escape_char.
  destruct a as [|c' a'].
  - cbn. now rewrite append_nil_r.
  - cbn [chars map String.concat] in *. now rewrite IH.
Qed.

Lemma has_special_cons (c : ascii) (s : string) :
  has_special (String c s)
  = (Ascii.eqb c amp || Ascii.eqb c lt_sign || Ascii.eqb c gt_sign
     || Ascii.eqb c dquote_char) || has_special s.
Proof. reflexivity. Qed.

Lemma length_append (a b : string) :
  String.length (a +:+ b) = (String.length a + String.length b)%nat.
Proof. induction a as [|c a IH]; [reflexivity|]. cbn. now rewrite IH. Qed.

Lemma length_html_escape (s : string) :
  (String.length s <= String.length (html_escape s))%nat.
Proof.
  induction s as [|c s IH]; [reflexivity|].
  rewrite html_escape_cons, length_append. unfold escape_char.
  repeat match goal with |- context [Ascii.eqb ?x ?y] =>
    destruct (Ascii.eqb x y) end; cbn -[html_escape]; lia.
Qed.

(** X9. A text is left as it is exactly when it has none of the four
    characters [&], [<], [>] and the double quote; escaping never shortens
    a text. *)
Theorem html_escape_unchanged_iff (s : string) :
  (html_escape s = s <-> has_special s = false)
  /\ (String.length s <= String.length (html_escape s))%nat.
Proof.
  split; [|apply length_html_escape].
  induction s as [|c s IH]; [now split|].
  rewrite html_escape_cons, has_special_cons. unfold escape_char.
  destruct (Ascii.eqb c amp) eqn:E1; [split; [|discriminate]|].
  { intros H. apply (f_equal String.length) in H. cbn -[html_escape] in H.
    pose proof (length_html_escape s). lia. }
  destruct (Ascii.eqb c lt_sign) eqn:E2; [split; [|discriminate]|].
  { intros H. apply (f_equal String.length) in H. cbn -[html_escape] in H.
    pose proof (length_html_escape s). lia. }
  destruct (Ascii.eqb c gt_sign) eqn:E3; [split; [|discriminate]|].
  { intros H. apply (f_equal String.length) in H. cbn -[html_escape] in H.
    pose proof (length_html_escape s). lia. }
  destruct (Ascii.eqb c dquote_char) eqn:E4; [split; [|discriminate]|].
  { intros H. apply (f_equal String.length) in H. cbn -[html_escape] in H.
    pose proof (length_html_escape s). lia. }
  cbn -[html_escape]. rewrite <- IH. split.
  - intros H. now injection H.
  - intros H. now rewrite H.
Qed.

(** ** The weight range of the tables, again *)

Lemma py_max_or_zero (l : list Q) :
  Forall (fun q => (0 <= q)%Q) l ->
  exists r,
    py_max_by Qgtb id (or_zero l) = Ok r
    /\ (0 <= r)%Q
    /\ (forall q, In q l -> (q <= r)%Q)
    /\ ((l = [] /\ r = 0%Q) \/ In r l).
Proof.
  intros Hpos.
  destruct (py_max_by_first_best Qgtb id Qgtb_irrefl Qgtb_trans Qgtb_negtrans
              (or_zero l)) as (i & r & Hr & Hi & Hmax & _).
  { destruct l; discriminate. }
  exists r. split; [exact Hr|].
  assert (Hin : In r (or_zero l)).
  { apply list_elem_of_In, list_elem_of_lookup. now exists i. }
  destruct l as [|x l].
  - destruct Hin as [<- | []]. repeat split; [discriminate| |now left].
    intros q [].
  - cbn [or_zero] in *. split.
    + rewrite List.Forall_forall in Hpos. now apply Hpos.
    + split; [|now right].
      intros q Hq. apply list_elem_of_In, list_elem_of_lookup in Hq.
      destruct Hq as [j Hj]. apply (Qgtb_false q r). exact (Hmax j q Hj).
Qed.

Lemma Forall_abs_nonneg {A : Type} (f : A -> Q) (l : list A) :
  Forall (fun q => (0 <= q)%Q) (map (fun x => Qabs (f x)) l).
Proof.
  apply List.Forall_forall. intros q Hq. apply in_map_iff in Hq.
  destruct Hq as (x & <- & _). apply Qabs_nonneg.
Qed.

Lemma feature_weights_range_max (w : FeatureWeights) :
  exists r,
    feature_weights_range w = Ok r
    /\ (0 <= r)%Q
    /\ (forall c, In c (coefs w) -> (Qabs c <= r)%Q)
    /\ ((coefs w = [] /\ r = 0%Q) \/ exists c, In c (coefs w) /\ r = Qabs c).
Proof.
  unfold feature_weights_range, coefs.
  set (l := default [] (pos w) ++ default [] (neg w)).
  destruct (py_max_or_zero (map (fun fc => Qabs (snd fc)) l)
              (Forall_abs_nonneg snd l)) as (r & Hr & H0 & Hle & Hat).
  exists r. split; [exact Hr|]. split; [exact H0|]. split.
  - intros c Hc. apply in_map_iff in Hc. destruct Hc as (fc & <- & Hfc).
    apply Hle. apply in_map_iff. now exists fc.
  - destruct Hat as [[E ->] | Hin].
    + left. split; [|reflexivity]. destruct l; [reflexivity|discriminate].
    + right. apply in_map_iff in Hin. destruct Hin as (fc & <- & Hfc).
      exists (snd fc). split; [|reflexivity]. apply in_map_iff. now exists fc.
Qed.

(** X10. [_weight_range] never raises.  For the weights of one target it
    returns the greatest magnitude among the coefficients of the [pos] and
    [neg] lists ([None] counting as empty), and 0 when there is none; for a
    list of targets it returns a number that no coefficient of any target
    exceeds in magnitude. *)
Theorem weight_range_is_max_magnitude :
  (forall w : FeatureWeights,
     exists r,
       _weight_range (Weights w) = Ok r
       /\ (0 <= r)%Q
       /\ (forall c, In c (coefs w) -> (Qabs c <= r)%Q)
       /\ ((coefs w = [] /\ r = 0%Q)
           \/ exists c, In c (coefs w) /\ r = Qabs c))
  /\ (forall ts : list TargetExplanation,
        exists r,
          _weight_range (TargetList ts) = Ok r
          /\ (0 <= r)%Q
          /\ forall t c, In t ts -> In c (coefs (feature_weights t)) ->
                         (Qabs c <= r)%Q).
Proof.
  split; [exact feature_weights_range_max|].
  intros ts. unfold _weight_range.
  assert (H : exists rs,
             mapM (fun t => feature_weights_range (feature_weights t)) ts = Ok rs
             /\ Forall (fun q => (0 <= q)%Q) rs
             /\ forall t c, In t ts -> In c (coefs (feature_weights t)) ->
                            exists r, In r rs /\ (Qabs c <= r)%Q).
  { induction ts as [|t ts (rs & Hrs & Hpos & Hle)].
    - exists []. split; [reflexivity|]. split; [constructor|]. intros t c [].
    - destruct (feature_weights_range_max (feature_weights t))
        as (r & Hr & H0 & Hmax & _).
      exists (r :: rs). split; [now rewrite mapM_cons, Hr, Hrs|].
      split; [now constructor|].
      intros t' c [<- | Hin] Hc.
      + exists r. split; [now left|]. now apply Hmax.
      + destruct (Hle t' c Hin Hc) as (r' & Hr' & Hc').
        exists r'. split; [now right|exact Hc']. }
  destruct H as (rs & -> & Hpos & Hle). cbn [mbind result_bind].
  destruct (py_max_or_zero rs Hpos) as (r & Hr & H0 & Hmax & _).
  exists r. split; [exact Hr|]. split; [exact H0|].
  intros t c Ht Hc. destruct (Hle t c Ht Hc) as (r' & Hr' & Hc').
  apply Qle_trans with r'; [exact Hc'|]. now apply Hmax.
Qed.

(** X11. The filter [fi_weight_range] never raises: it returns the
    greatest magnitude among the importances, and 0 for an empty list. *)
Theorem fi_weight_range_is_max_magnitude (w : list (feature_label * Q)) :
  exists r,
    fi_weight_range w = Ok r
    /\ (0 <= r)%Q
    /\ (forall x, In x w -> (Qabs (snd x) <= r)%Q)
    /\ ((w = [] /\ r = 0%Q) \/ exists x, In x w /\ r = Qabs (snd x)).
Proof.
  unfold fi_weight_range.
  destruct (py_max_or_zero (map (fun x => Qabs (snd x)) w)
              (Forall_abs_nonneg snd w)) as (r & Hr & H0 & Hle & Hat).
  exists r. split; [exact Hr|]. split; [exact H0|]. split.
  - intros x Hx. apply Hle. apply in_map_iff. now exists x.
  - destruct Hat as [[E ->] | Hin].
    + left. split; [|reflexivity]. destruct w; [reflexivity|discriminate].
    + right. apply in_map_iff in Hin. destruct Hin as (x & <- & Hx).
      now exists x.
Qed.

(** ** The colour of the remaining weights *)

Lemma signs_other (k : string) :
  k <> "pos" -> k <> "neg" -> signs !! k = None.
Proof.
  intros H1 H2. unfold signs.
  rewrite lookup_insert_ne by congruence.
  rewrite lookup_insert_ne by congruence.
  apply lookup_empty.
Qed.

Section RemainingProperties.

Variable pow07 : num -> num.

(** X12. [_remaining_weight_color] raises [KeyError] exactly for the keys
    other than 'pos' and 'neg': the key is looked up before the weights and
    the range are read. *)
Theorem remaining_weight_color_keys (ws : list (feature_label * Q))
    (weight_range : Q) (pos_neg : string) :
  _remaining_weight_color pow07 ws weight_range pos_neg = Raise KeyError
  <-> (pos_neg <> "pos" /\ pos_neg <> "neg").
Proof.
  unfold _remaining_weight_color. split.
  - intros H.
    assert (Hk : forall s, signs !! pos_neg = Some s -> False).
    { intros s Hs. rewrite Hs in H. cbn [mbind result_bind] in H.
      destruct ws as [|x ws].
      - cbn [is_empty andb] in H. destruct (Qzero weight_range); discriminate.
      - cbn [is_empty andb] in H.
        destruct (py_max_by_nonempty Qltb Qabs (map snd (x :: ws))) as [m Hm];
          [discriminate|].
        change (py_min_by Qltb Qabs (map snd (x :: ws)))
          with (py_max_by Qltb Qabs (map snd (x :: ws))) in H.
        rewrite Hm in H. discriminate. }
    split; intros ->; [apply (Hk 1%Z signs_pos)|apply (Hk (-1)%Z signs_neg)].
  - intros [H1 H2]. now rewrite signs_other.
Qed.

(** X13. When weights remain, the key only has to be valid: 'pos' and 'neg'
    give the same colour, that of the remaining weight of smallest
    magnitude, whose own sign decides the hue. *)
Theorem remaining_weight_color_ignores_key (ws : list (feature_label * Q))
    (weight_range : Q) :
  ws <> [] ->
  _remaining_weight_color pow07 ws weight_range "pos"
  = _remaining_weight_color pow07 ws weight_range "neg".
Proof.
  intros Hne. unfold _remaining_weight_color.
  rewrite signs_pos, signs_neg. cbn [mbind result_bind].
  destruct ws; [congruence|reflexivity].
Qed.


End RemainingProperties.

Lemma remaining_weight_color_ignores_key_witness :
  _remaining_weight_color pow_stand_in [(Plain "a", (-3)%Q)] 5 "pos"
  = _remaining_weight_color pow_stand_in [(Plain "a", (-3)%Q)] 5 "neg".
Proof.
  apply (remaining_weight_color_ignores_key pow_stand_in). discriminate.
Defined.


(** ** Feature labels, again *)

(** X14. A list one item of which lacks the key 'name' or the key 'sign'
    is not taken for an unhashed feature: it is handed to
    [_format_single_feature], where escaping a list raises
    [AttributeError]. *)
Theorem format_feature_malformed_list (items : list (gmap string pyval))
    (d : gmap string pyval) (weight : Q) (hl_spaces : bool) :
  In d items -> d !! "name" = None \/ d !! "sign" = None ->
  _format_feature (PyList items) weight hl_spaces = Raise AttributeError.
Proof.
  intros Hin Hmiss. unfold _format_feature.
  destruct (forallb _ items) eqn:E; [|reflexivity].
  rewrite forallb_forall in E. specialize (E d Hin).
  apply andb_true_iff in E. destruct E as [E1 E2].
  unfold has_key in E1, E2.
  apply bool_decide_eq_true in E1, E2.
  destruct Hmiss as [H|H]; rewrite H in *;
    [destruct E1 as [? ?]|destruct E2 as [? ?]]; discriminate.
Qed.

Lemma format_feature_malformed_list_witness :
  _format_feature (PyList [candidate "a" 1; {["name" := VStr "b"]}]) 1 false
  = Raise AttributeError.
Proof.
  apply (format_feature_malformed_list _ {["name" := VStr "b"]}).
  - right. now left.
  - right. reflexivity.
Defined.

Lemma replace_runs_ext (f g : nat -> side -> string) (rs : list run) :
  (forall n sd, f n sd = g n sd) ->
  forall b, replace_runs f b rs = replace_runs g b rs.
Proof.
  intros H. induction rs as [|[n|t] rs IH]; intros b; cbn [replace_runs].
  - reflexivity.
  - now rewrite H, IH.
  - now rewrite IH.
Qed.

(** X19. The markup of a single feature depends on the weight only
    through its hue, that is through whether the weight is positive. *)
Theorem format_single_feature_weight_sign (feature : string) (w w' : Q)
    (hl_spaces : bool) :
  ((0 < w)%Q <-> (0 < w')%Q) ->
  _format_single_feature feature w hl_spaces
  = _format_single_feature feature w' hl_spaces.
Proof.
  intros Hs.
  assert (Hh : _hue (Fin w) = _hue (Fin w')).
  { unfold _hue, num_gtb.
    change (negb (Qle_bool w 0)) with (Qgtb w 0).
    change (negb (Qle_bool w' 0)) with (Qgtb w' 0).
    destruct (Qgtb w 0) eqn:E; destruct (Qgtb w' 0) eqn:E'; try reflexivity.
    - apply Qgtb_lt, Hs, Qgtb_lt in E. congruence.
    - apply Qgtb_lt, Hs, Qgtb_lt in E'. congruence. }
  unfold _format_single_feature, replace_spaces.
  destruct hl_spaces; cbn [negb]; [|reflexivity].
  apply replace_runs_ext. intros n sd. unfold replacer. now rewrite Hh.
Qed.

Lemma format_single_feature_weight_sign_witness :
  _format_single_feature "a b" 1 true = _format_single_feature "a b" (7 # 2) true.
Proof.
  apply format_single_feature_weight_sign. split; reflexivity.
Defined.

Lemma runs_no_space (s : string) :
  has_space s = false ->
  runs s = match s with
           | EmptyString => []
           | _ => [Text s]
           end.
Proof.
  induction s as [|c s IH]; [reflexivity|].
  unfold has_space. cbn [list_ascii_of_string existsb]. intros H.
  apply orb_false_iff in H. destruct H as [Hc Hs].
  cbn [runs]. rewrite Hc. rewrite (IH Hs). now destruct s.
Qed.

Lemma has_space_html_escape (s : string) :
  has_space (html_escape s) = has_space s.
Proof.
  induction s as [|c s IH]; [reflexivity|].
  rewrite html_escape_cons.
  assert (E : forall a b, has_space (a +:+ b) = has_space a || has_space b).
  { clear. induction a as [|x a IHa]; intros b; [reflexivity|].
    unfold has_space in *. cbn [String.append list_ascii_of_string existsb].
    now rewrite IHa, orb_assoc. }
  rewrite E, IH. f_equal.
  destruct c as [[] [] [] [] [] [] [] []]; reflexivity.
Qed.

(** X20. On a feature without a space character the highlighting of
    spaces changes nothing: the markup is the escaped feature. *)
Theorem format_single_feature_no_space (feature : string) (weight : Q)
    (hl_spaces : bool) :
  has_space feature = false ->
  _format_single_feature feature weight hl_spaces = html_escape feature.
Proof.
  intros Hs. unfold _format_single_feature, replace_spaces.
  destruct hl_spaces; cbn [negb]; [|reflexivity].
  rewrite runs_no_space by now rewrite has_space_html_escape.
  destruct (html_escape feature) as [|c s]; [reflexivity|].
  cbn [replace_runs]. apply append_nil_r.
Qed.

Lemma format_single_feature_no_space_witness :
  _format_single_feature "a<b" 1 true = html_escape "a<b".
Proof. apply format_single_feature_no_space. reflexivity. Defined.

(** ** Opacity and top target, again *)

(** X16. For a positive range the opacity grows with the magnitude of the
    weight. *)
Theorem weight_opacity_monotone (w1 w2 r : Q) :
  (0 < r)%Q -> (Qabs w1 <= Qabs w2)%Q ->
  exists v1 v2,
    opacity (Fin w1) (Fin r) = Fin v1
    /\ opacity (Fin w2) (Fin r) = Fin v2
    /\ (v1 <= v2)%Q.
Proof.
  intros Hr Hle. rewrite !opacity_value by exact Hr.
  eexists _, _. split; [reflexivity|]. split; [reflexivity|].
  assert (Hc : (0 < float_1_minus_0_8)%Q) by reflexivity.
  assert (Hm : (0 < float_0_8)%Q) by reflexivity.
  assert (Hd : forall w, (0 <= Qred (Qred (Qabs w) / r))%Q).
  { intros w. rewrite !Qred_correct.
    apply Qle_shift_div_l; [exact Hr|]. rewrite Qmult_0_l. apply Qabs_nonneg. }
  assert (H1 : (round64 (Qred (Qred (Qabs w1) / r))
                <= round64 (Qred (Qred (Qabs w2) / r)))%Q).
  { apply round64_mono; [apply Hd|]. rewrite !Qred_correct.
    unfold Qdiv. apply Qmult_le_compat_r; [exact Hle|].
    apply Qlt_le_weak, Qinv_lt_0_compat, Hr. }
  assert (P1 : (0 <= round64 (Qred (Qred (Qabs w1) / r)))%Q).
  { rewrite <- round64_0. apply round64_mono; [apply Qle_refl|apply Hd]. }
  set (a1 := round64 (Qred (Qred (Qabs w1) / r))) in *.
  set (a2 := round64 (Qred (Qred (Qabs w2) / r))) in *.
  assert (H2 : (round64 (Qred (float_1_minus_0_8 * a1))
                <= round64 (Qred (float_1_minus_0_8 * a2)))%Q).
  { apply round64_mono; rewrite !Qred_correct; nra. }
  assert (P2 : (0 <= round64 (Qred (float_1_minus_0_8 * a1)))%Q).
  { rewrite <- round64_0. apply round64_mono; [apply Qle_refl|].
    rewrite Qred_correct. nra. }
  set (b1 := round64 (Qred (float_1_minus_0_8 * a1))) in *.
  set (b2 := round64 (Qred (float_1_minus_0_8 * a2))) in *.
  apply round64_mono; rewrite !Qred_correct; lra.
Qed.

Lemma weight_opacity_monotone_witness :
  exists v1 v2,
    opacity (Fin (1 # 2)) (Fin 2) = Fin v1
    /\ opacity (Fin (-1)) (Fin 2) = Fin v2
    /\ (v1 <= v2)%Q.
Proof.
  apply (weight_opacity_monotone (1 # 2) (-1) 2); [reflexivity|discriminate].
Defined.

(** X17. [_get_top_target] raises exactly on the empty list, where [max]
    has nothing to choose from; on a non-empty list it returns a target of
    the list or [None]. *)
Theorem get_top_target_returns_iff (targets : list TargetExplanation) :
  (targets = [] -> _get_top_target targets = Raise ValueError)
  /\ (targets <> [] ->
      exists o, _get_top_target targets = Ok o
                /\ forall t, o = Some t -> In t targets).
Proof.
  split; [now intros ->|].
  intros Hne. unfold _get_top_target.
  assert (Hmax : forall key : TargetExplanation -> Q,
             exists t, py_max_by Qgtb key targets = Ok t /\ In t targets).
  { intros key.
    destruct (py_max_by_first_best Qgtb key Qgtb_irrefl Qgtb_trans
                Qgtb_negtrans targets Hne) as (i & t & Ht & Hi & _).
    exists t. split; [exact Ht|].
    apply list_elem_of_In, list_elem_of_lookup. now exists i. }
  destruct (forallb (fun t => not_None (proba t)) targets).
  - destruct (Hmax (fun t => default 0%Q (proba t))) as (t & -> & Hin).
    eexists. split; [reflexivity|]. now intros t' [= <-].
  - destruct (forallb (fun t => not_None (score t)) targets).
    + destruct (Hmax (fun t => default 0%Q (score t))) as (t & -> & Hin).
      eexists. split; [reflexivity|]. now intros t' [= <-].
    + eexists. split; [reflexivity|]. discriminate.
Qed.

Lemma get_top_target_returns_iff_witness :
  _get_top_target [] = Raise ValueError
  /\ exists o, _get_top_target [target_a; target_b] = Ok o
               /\ forall t, o = Some t -> In t [target_a; target_b].
Proof.
  split.
  - now apply (proj1 (get_top_target_returns_iff [])).
  - now apply (proj2 (get_top_target_returns_iff [target_a; target_b])).
Defined.

(** ** Ranges of one character *)

Lemma num_div_one_then (x : num) (count : nat) :
  num_div (num_div x (num_of_Z 1)) (num_of_Z (Z.of_nat count))
  = num_div x (num_of_Z (Z.of_nat count)).
Proof.
  destruct x as [q|s|]; [|now destruct s|reflexivity].
  unfold num_of_Z. cbn [num_div]. change (Qzero (inject_Z 1)) with false.
  cbn [num_div].
  assert (E : Qred (q / inject_Z 1) == q) by (rewrite Qred_correct; field).
  assert (Ez : Qzero (Qred (q / inject_Z 1)) = Qzero q).
  { unfold Qzero. destruct (Qeq_bool q 0) eqn:Eq.
    - apply Qeq_bool_iff. rewrite E. now apply Qeq_bool_iff.
    - destruct (Qeq_bool (Qred (q / inject_Z 1)) 0) eqn:Eq'; [|reflexivity].
      apply Qeq_bool_iff in Eq'. rewrite E in Eq'.
      apply Qeq_bool_iff in Eq'. congruence. }
  assert (En : Qneg (Qred (q / inject_Z 1)) = Qneg q).
  { unfold Qneg. f_equal. destruct (Qle_bool 0 q) eqn:El.
    - apply Qle_bool_iff. rewrite E. now apply Qle_bool_iff.
    - destruct (Qle_bool 0 (Qred (q / inject_Z 1))) eqn:El'; [|reflexivity].
      apply Qle_bool_iff in El'. rewrite E in El'.
      apply Qle_bool_iff in El'. congruence. }
  rewrite Ez, En.
  destruct (Qzero (inject_Z (Z.of_nat count))); [reflexivity|].
  f_equal. apply Qred_complete. now rewrite E.
Qed.

Lemma range_fold_unit (count : nat) (ranges : list (Z * Z))
    (w : num) (a : list num) :
  Forall (fun r => (snd r - fst r = 1)%Z) ranges ->
  snd (foldl (range_step true count) (w, a) ranges)
  = snd (foldl (range_step false count) (w, a) ranges)
  /\ fst (foldl (range_step true count) (w, a) ranges)
     = fst (foldl (range_step false count) (w, a) ranges).
Proof.
  intros Hall. revert w a.
  induction Hall as [|[start stop] ranges H1 _ IH]; intros w a; [now split|].
  cbn [foldl]. cbn in H1.
  assert (E : range_step true count (w, a) (start, stop)
              = range_step false count (w, a) (start, stop)).
  { unfold range_step. rewrite H1. now rewrite num_div_one_then. }
  rewrite E. destruct (range_step false count (w, a) (start, stop)) as [w' a'].
  apply IH.
Qed.

(** X18. When every range is one character long, preserving the density
    changes nothing. *)
Theorem char_weights_unit_ranges (n : nat) (spans : list WeightedSpan) :
  Forall (fun ws => Forall (fun r => (snd r - fst r = 1)%Z) (span_ranges ws))
         spans ->
  char_weights n spans true = char_weights n spans false.
Proof.
  intros Hall. unfold char_weights.
  generalize (Counter (map (fun ws => fst (fst ws)) spans)). intros counts.
  generalize (replicate n (Fin 0)).
  induction Hall as [|[[feature ranges] weight] spans H1 _ IH]; intros a;
    [reflexivity|].
  cbn [foldl]. unfold span_step at 2 4.
  destruct (range_fold_unit (counter_get counts feature) ranges (Fin weight) a H1)
    as [-> _].
  apply IH.
Qed.

Lemma char_weights_unit_ranges_witness :
  char_weights 3 [("f", [(0, 1); (2, 3)], 2%Q)] true
  = char_weights 3 [("f", [(0, 1); (2, 3)], 2%Q)] false.
Proof.
  apply char_weights_unit_ranges. repeat constructor.
Defined.
